(** * Visor3dMci: the part pipeline of the viewer and the project store

    A shallow embedding of the viewer's part pipeline (the [App] component:
    [updatePartsFromRoot], [applyProjectPartsMeta], [addRootToScene], the
    loaders' completion callbacks) and of the project server (server.js).

    Conventions of the embedding:
    - a JavaScript value that the code only tests for truthiness, compares
      with [undefined] or stores is a [jsval]; numbers that are identifiers
      or counters are integers ([Z], [nat]) and their arithmetic is exact,
      as it is for JavaScript numbers below 2^53: a theorem about a store
      that is not built from the empty one assumes that its ids are safe
      integers ([isSafeInteger]) where it needs a sum or the string form
      of a number to be the exact one;
    - a JavaScript object used as a dictionary ([partsMeta]) is a [gmap]
      with string keys, as property keys are strings; the [gmap] holds the
      properties of the object itself, and a key that is read where the
      object has none gives what the object inherits ([inherited]);
    - React state setters are applied in program order; a functional
      updater sees the value left by the setters before it;
    - what the libraries do (three.js, express, crypto, the file system) is
      either written out from their documented behaviour ([traverse]) or a
      parameter of the model ([hashPassword], [slugify], [extname], the
      outcome of the file operations). *)

From Stdlib Require Import ZArith QArith Ascii.
From stdpp Require Import base strings list gmap pretty.

(** ** JavaScript values *)

(** The values that the bodies of the requests and the fields of the parts
    take here. A number is an integer; fractions, objects and arrays are
    not among these values. *)
Inductive jsval :=
| JUndefined
| JNull
| JBool (b : bool)
| JNum (n : Z)
| JStr (s : string).

Global Instance jsval_eq_dec : EqDecision jsval.
Proof. solve_decision. Defined.

(** [!!v] *)
Definition truthy (v : jsval) : bool :=
  match v with
  | JUndefined | JNull => false
  | JBool b => b
  | JNum n => negb (n =? 0)%Z
  | JStr s => negb (String.eqb s "")
  end.

(** [a || b] *)
Definition js_or (a b : jsval) : jsval := if truthy a then a else b.

(** [v !== undefined] *)
Definition defined (v : jsval) : bool :=
  match v with JUndefined => false | _ => true end.

(** [Number.isSafeInteger(n)] for an integer [n]: the integers that a
    JavaScript number holds exactly, with exact successor and
    predecessor. *)
Definition isSafeInteger (n : Z) : bool := (Z.abs n <? 2 ^ 53)%Z.

(** [String(v)]. The string of a number is its decimal notation for a safe
    integer; a greater number is printed with the digits that tell it from
    its neighbours, and with an exponent from 1e21 on, which is not
    written out here. *)
Definition js_String (v : jsval) : string :=
  match v with
  | JUndefined => "undefined"
  | JNull => "null"
  | JBool true => "true"
  | JBool false => "false"
  | JNum n => pretty n
  | JStr s => s
  end.

(** The values of which [js_String] is the string form. *)
Definition exactString (v : jsval) : bool :=
  match v with
  | JNum n => isSafeInteger n
  | _ => true
  end.

(** *** Inherited properties

    A plain object ([{}], or an object read by [JSON.parse]) inherits the
    members of [Object.prototype]: [obj[key]] is the inherited member when
    [obj] has no property [key] of its own. [Object_prototype] lists the
    members by name, each with the [name] property of the value it holds:
    a function member is named after its key, except [constructor], which
    is the function [Object]; [__proto__] is an accessor that gives
    [Object.prototype] itself, which has no [name]. All these values are
    truthy, and none has a property [notes], [color] or
    [materialPreset]. *)
Definition Object_prototype : list (string * jsval) :=
  [ ("constructor", JStr "Object");
    ("__defineGetter__", JStr "__defineGetter__");
    ("__defineSetter__", JStr "__defineSetter__");
    ("hasOwnProperty", JStr "hasOwnProperty");
    ("__lookupGetter__", JStr "__lookupGetter__");
    ("__lookupSetter__", JStr "__lookupSetter__");
    ("isPrototypeOf", JStr "isPrototypeOf");
    ("propertyIsEnumerable", JStr "propertyIsEnumerable");
    ("toString", JStr "toString");
    ("valueOf", JStr "valueOf");
    ("__proto__", JUndefined);
    ("toLocaleString", JStr "toLocaleString") ].

(** The [name] of the member that a plain object inherits under [key]. *)
Definition inherited (key : string) : option jsval :=
  snd ∘ snd <$> list_find (λ member, member.1 = key) Object_prototype.

(** [s.toLowerCase()], on the ASCII letters. *)
Definition lower_ascii (c : Ascii.ascii) : Ascii.ascii :=
  let n := Ascii.nat_of_ascii c in
  if (65 <=? n)%nat && (n <=? 90)%nat then Ascii.ascii_of_nat (n + 32) else c.

Fixpoint toLowerCase (s : string) : string :=
  match s with
  | EmptyString => EmptyString
  | String c r => String (lower_ascii c) (toLowerCase r)
  end.

(** [s.split(".").pop()]: what follows the last dot, the whole string when
    there is none. *)
Fixpoint split_pop (acc s : string) : string :=
  match s with
  | EmptyString => acc
  | String c r =>
      if Ascii.eqb c "."%char then split_pop EmptyString r
      else split_pop (acc +:+ String c EmptyString) r
  end.

(** ** Records shared by the viewer and the store *)

Record Vec3 := { vx : Q; vy : Q; vz : Q }.

Definition origin : Vec3 := {| vx := 0; vy := 0; vz := 0 |}.

(** One entry of [partsMeta]: [{ name, notes, color, materialPreset }]. A
    field that the object lacks reads as [JUndefined]. *)
Record PartMeta := {
  m_name : jsval;
  m_notes : jsval;
  m_color : jsval;
  m_materialPreset : jsval;
}.

(** [{}] read as an entry. *)
Definition emptyMeta : PartMeta :=
  {| m_name := JUndefined; m_notes := JUndefined;
     m_color := JUndefined; m_materialPreset := JUndefined |}.

(** ** The viewer *)

Module Viewer.

(** *** Colours and materials *)

Definition PART_COLORS : list string :=
  [ "#f97316"; "#22c55e"; "#3b82f6"; "#eab308";
    "#ec4899"; "#8b5cf6"; "#06b6d4"; "#f59e0b" ].

Definition getPartColor (index : nat) : jsval :=
  from_option JStr JUndefined
    (PART_COLORS !! (index `mod` length PART_COLORS)).

Record Preset := {
  label : string;
  shininess : Z;
  specular : Z;
  transparent : bool;
  opacity : Q;
}.

Definition plastic : Preset :=
  {| label := "Plástico / Pintura"; shininess := 30; specular := 0x444444;
     transparent := false; opacity := 1 |}.

Definition MATERIAL_PRESETS : list (string * Preset) :=
  [ ("plastic", plastic);
    ("metal", {| label := "Metal pulido"; shininess := 80;
                 specular := 0xcccccc; transparent := false; opacity := 1 |});
    ("roughMetal", {| label := "Metal rugoso"; shininess := 25;
                      specular := 0x888888; transparent := false;
                      opacity := 1 |});
    ("rubber", {| label := "Goma / Caucho"; shininess := 5;
                  specular := 0x111111; transparent := false; opacity := 1 |});
    ("glass", {| label := "Vidrio"; shininess := 90; specular := 0xffffff;
                 transparent := true; opacity := 1 # 4 |}) ].

(** [MATERIAL_PRESETS[presetKey] || MATERIAL_PRESETS.plastic], for a key
    that is not the name of a member that the table inherits
    ([Object_prototype]): for such a key the code takes the inherited
    member, whose [shininess], [specular], [transparent] and [opacity] are
    undefined, and what three.js makes of these is not part of the
    model. *)
Definition presetOf (presetKey : string) : Preset :=
  match list_find (λ kv, kv.1 = presetKey) MATERIAL_PRESETS with
  | Some (_, (_, p)) => p
  | None => plastic
  end.

Inductive Side := FrontSide | DoubleSide.

(** A [MeshPhongMaterial]; [ph_version] counts the [needsUpdate = true].
    Each node carries its own material value: two meshes that share one
    material object are not told apart from two that do not, so what is
    proved of the material of a mesh is what holds of it in both cases:
    the values that the last update of that mesh wrote, and nothing about
    the materials of the other meshes. *)
Record Phong := {
  ph_color : jsval;
  ph_shininess : Z;
  ph_specular : Z;
  ph_transparent : bool;
  ph_opacity : Q;
  ph_side : Side;
  ph_version : nat;
}.

(** The [material] of a node: none, one that is not a
    [MeshPhongMaterial] (an array of materials included), or a Phong one. *)
Inductive Material :=
| NoMaterial
| OtherMaterial
| PhongMaterial (m : Phong).

Definition createMaterialForPart (colorHex : jsval) (presetKey : string)
  : Material :=
  let preset := presetOf presetKey in
  PhongMaterial
    {| ph_color := js_or colorHex (JStr "#ffffff");
       ph_shininess := shininess preset;
       ph_specular := specular preset;
       ph_transparent := transparent preset;
       ph_opacity := opacity preset;
       ph_side := DoubleSide;
       ph_version := 0 |}.

(** *** The scene tree *)

(** [userData] of a node: the tags the viewer stamps. *)
Record UserData := {
  partId : option nat;
  baseColor : option jsval;
  ud_materialPreset : option string;
}.

Definition noUserData : UserData :=
  {| partId := None; baseColor := None; ud_materialPreset := None |}.

(** The fields of an [Object3D] that the pipeline reads or writes. *)
Record NodeData := {
  isMesh : bool;
  nodeName : string;
  nodeVisible : bool;
  material : Material;
  userData : UserData;
}.

#[local] Unset Elimination Schemes.
Inductive Object3D :=
| Obj (data : NodeData) (children : list Object3D).
#[local] Set Elimination Schemes.

(** [Object3D.traverse(callback)]: the callback on the node, then the
    traversal of each child in order. The callback may update the node it
    is given and the state it closes over. *)
Fixpoint traverse {S : Type} (callback : S → NodeData → S * NodeData)
    (s : S) (o : Object3D) : S * Object3D :=
  match o with
  | Obj d cs =>
      let '(s1, d1) := callback s d in
      let '(s2, cs') :=
        (fix each (s : S) (cs : list Object3D) : S * list Object3D :=
           match cs with
           | [] => (s, [])
           | c :: rest =>
               let '(s', c') := traverse callback s c in
               let '(s'', rest') := each s' rest in
               (s'', c' :: rest')
           end) s1 cs in
      (s2, Obj d1 cs')
  end.

(** *** Parts *)

Record Part := {
  id : nat;
  name : jsval;
  visible : bool;
  color : jsval;
  materialPreset : jsval;
  notes : jsval;
}.

(** The material that [updatePartsFromRoot] leaves on a mesh. *)
Definition plasticMaterial (partColor : jsval) (current : Material)
  : Material :=
  match current with
  | PhongMaterial m =>
      PhongMaterial
        {| ph_color := partColor;
           ph_shininess := shininess plastic;
           ph_specular := specular plastic;
           ph_transparent := transparent plastic;
           ph_opacity := opacity plastic;
           ph_side := DoubleSide;
           ph_version := S (ph_version m) |}
  | NoMaterial | OtherMaterial => createMaterialForPart partColor "plastic"
  end.

(** The mesh as [updatePartsFromRoot] leaves it when it gives it
    [index]. *)
Definition stamped (index : nat) (child : NodeData) : NodeData :=
  let partColor := getPartColor index in
  {| isMesh := isMesh child;
     nodeName := nodeName child;
     nodeVisible := nodeVisible child;
     material := plasticMaterial partColor (material child);
     userData :=
       {| partId := Some index;
          baseColor := Some partColor;
          ud_materialPreset := ud_materialPreset (userData child) |} |}.

(** The record pushed on [newParts] for the mesh that gets [index]. *)
Definition freshPart (index : nat) (child : NodeData) : Part :=
  {| id := index;
     name := js_or (JStr (nodeName child))
               (JStr ("Parte " +:+ pretty (index + 1)));
     visible := nodeVisible child;
     color := getPartColor index;
     materialPreset := JStr "plastic";
     notes := JStr "" |}.

(** The callback of [updatePartsFromRoot]; its state is [index] and
    [newParts]. *)
Definition stampPart (st : nat * list Part) (child : NodeData)
  : (nat * list Part) * NodeData :=
  let '(index, newParts) := st in
  if isMesh child then
    ((S index, newParts ++ [freshPart index child]), stamped index child)
  else (st, child).

(** [updatePartsFromRoot(root)]: the stamped tree and the list handed to
    [setParts]. *)
Definition updatePartsFromRoot (root : Object3D) : Object3D * list Part :=
  let '((_, newParts), root') := traverse stampPart (0, []) root in
  (root', newParts).

(** The nodes of a tree in depth-first order, a node before its children
    and the children from first to last: the order in which [traverse]
    visits them. *)
Fixpoint preorder (o : Object3D) : list NodeData :=
  match o with
  | Obj d cs =>
      d :: (fix all (cs : list Object3D) : list NodeData :=
              match cs with
              | [] => []
              | c :: rest => preorder c ++ all rest
              end) cs
  end.

(** The mesh nodes of a tree, in that order. *)
Definition meshes (o : Object3D) : list NodeData :=
  filter (λ d, isMesh d) (preorder o).

(** *** Reconciling saved metadata *)

(** A project as [GET /api/projects] lists it. A field that is missing or
    falsy where the code tests it is [None]. *)
Record ProjectView := {
  pv_id : Z;
  pv_name : jsval;
  pv_author : string;
  pv_date : string;
  pv_position : option Vec3;
  pv_rotation : option Vec3;
  pv_modelFile : string;
  pv_modelUrl : option string;
  pv_partsMeta : option (gmap string PartMeta);
  pv_pendingNotes : jsval;
}.

(** The entry [m] that [applyProjectPartsMeta] picks for a part:
    [meta[p.id]], else [meta[String(p.id)]], else [null]. A number used as
    a property key is converted to its string form, so both look one key
    up. *)
Definition metaFor (meta : gmap string PartMeta) (p : Part)
  : option PartMeta :=
  match meta !! pretty (id p) with
  | Some m => Some m
  | None =>
      match meta !! js_String (JNum (Z.of_nat (id p))) with
      | Some m => Some m
      | None => None
      end
  end.

(** The record built for a part that has an entry. *)
Definition overlay (m : PartMeta) (p : Part) : Part :=
  {| id := id p;
     name := js_or (m_name m) (name p);
     visible := visible p;
     color := js_or (js_or (m_color m) (color p)) (JStr "#22c55e");
     materialPreset :=
       js_or (js_or (m_materialPreset m) (materialPreset p)) (JStr "plastic");
     notes :=
       if defined (m_notes m) then m_notes m
       else js_or (notes p) (JStr "") |}.

(** [applyProjectPartsMeta(project)] as a function of the current
    [parts]. *)
Definition applyProjectPartsMeta (project : option ProjectView)
    (prev : list Part) : list Part :=
  match project with
  | None => prev
  | Some project =>
      match pv_partsMeta project with
      | None => prev
      | Some meta =>
          (λ p, match metaFor meta p with
                | None => p
                | Some m => overlay m p
                end) <$> prev
      end
  end.

(** *** The state of [App] *)

Record State := {
  modelRef : option Object3D;
  objectUrlRef : option string;
  modelTypeRef : string;
  hasModel : bool;
  modelName : string;
  modelVisible : bool;
  position : Vec3;
  rotation : Vec3;
  parts : list Part;
  editingPartId : option nat;
  projects : list ProjectView;
  currentProjectId : option Z;
  pendingNotes : jsval;
}.

(** [clearCurrentModel()]; the scene exists once the component is
    mounted. Disposal frees GPU resources and leaves the state alone. *)
Definition clearCurrentModel (v : State) : State :=
  match modelRef v with
  | None => v
  | Some _ =>
      {| modelRef := None;
         objectUrlRef := objectUrlRef v;
         modelTypeRef := modelTypeRef v;
         hasModel := hasModel v;
         modelName := modelName v;
         modelVisible := modelVisible v;
         position := position v;
         rotation := rotation v;
         parts := [];
         editingPartId := None;
         projects := projects v;
         currentProjectId := currentProjectId v;
         pendingNotes := pendingNotes v |}
  end.

(** [addRootToScene(root)]. [centerObjectAtOrigin], [snapModelToGround]
    and [fitCameraToObject] move the object and the camera, which the
    state below does not hold. *)
Definition addRootToScene (root : Object3D) (v : State) : State :=
  let v1 := clearCurrentModel v in
  let '(root', newParts) := updatePartsFromRoot root in
  {| modelRef := Some root';
     objectUrlRef := objectUrlRef v1;
     modelTypeRef := modelTypeRef v1;
     hasModel := true;
     modelName := modelName v1;
     modelVisible := true;
     position := origin;
     rotation := origin;
     parts := newParts;
     editingPartId := editingPartId v1;
     projects := projects v1;
     currentProjectId := currentProjectId v1;
     pendingNotes := pendingNotes v1 |}.

(** [applyTransformAndMeta], the [onLoaded] of a project load; it closes
    over [project]. *)
Definition applyTransformAndMeta (project : ProjectView) (v : State)
  : State :=
  {| modelRef := modelRef v;
     objectUrlRef := objectUrlRef v;
     modelTypeRef := modelTypeRef v;
     hasModel := hasModel v;
     modelName := modelName v;
     modelVisible := modelVisible v;
     position := default origin (pv_position project);
     rotation := default origin (pv_rotation project);
     parts := applyProjectPartsMeta (Some project) (parts v);
     editingPartId := editingPartId v;
     projects := projects v;
     currentProjectId := currentProjectId v;
     pendingNotes := pendingNotes v |}.

(** *** Loads *)

Inductive Loader :=
| STLLoader | OBJLoader | GLTFLoader | PLYLoader | ThreeMFLoader.

(** The [switch (ext)] of [handleFileChange] and [handleLoadProject]. *)
Definition loaderFor (ext : string) : option Loader :=
  if String.eqb ext "stl" then Some STLLoader
  else if String.eqb ext "obj" then Some OBJLoader
  else if String.eqb ext "gltf" then Some GLTFLoader
  else if String.eqb ext "glb" then Some GLTFLoader
  else if String.eqb ext "ply" then Some PLYLoader
  else if String.eqb ext "3mf" then Some ThreeMFLoader
  else None.

(** A load in flight: the closure that [loader.load] keeps until the file
    is parsed. *)
Record Load := {
  loader : Loader;
  url : string;
  onLoaded : option ProjectView;
}.

(** [new THREE.Mesh(geometry, createMaterialForPart("#ffffff"))] *)
Definition newMesh : Object3D :=
  Obj {| isMesh := true; nodeName := ""; nodeVisible := true;
         material := createMaterialForPart (JStr "#ffffff") "plastic";
         userData := noUserData |} [].

(** The success callback of a load; [result] is what the parser hands over
    (for STL and PLY a geometry, which becomes the one mesh [newMesh]). *)
Definition rootFor (k : Loader) (result : Object3D) : Object3D :=
  match k with
  | STLLoader | PLYLoader => newMesh
  | OBJLoader | GLTFLoader | ThreeMFLoader => result
  end.

Definition onLoad (l : Load) (result : Object3D) (v : State) : State :=
  let v1 := addRootToScene (rootFor (loader l) result) v in
  match onLoaded l with
  | None => v1
  | Some project => applyTransformAndMeta project v1
  end.

(** [handleFileChange(event)] for a chosen file; [objUrl] is the URL that
    [URL.createObjectURL] returns. *)
Definition handleFileChange (fileName objUrl : string) (v : State)
  : State * option Load :=
  let ext := toLowerCase (split_pop "" fileName) in
  let v1 :=
    {| modelRef := modelRef v;
       objectUrlRef := Some objUrl;
       modelTypeRef := ext;
       hasModel := hasModel v;
       modelName := fileName;
       modelVisible := modelVisible v;
       position := position v;
       rotation := rotation v;
       parts := parts v;
       editingPartId := None;
       projects := projects v;
       currentProjectId := None;
       pendingNotes := JStr "" |} in
  (v1, (λ k, {| loader := k; url := objUrl; onLoaded := None |})
         <$> loaderFor ext).

(** [handleLoadProject(projectId)] *)
Definition handleLoadProject (projectId : Z) (v : State)
  : State * option Load :=
  match list_find (λ p, pv_id p = projectId) (projects v) with
  | None => (v, None)
  | Some (_, project) =>
      match pv_modelUrl project with
      | None => (v, None)
      | Some modelUrl =>
          if String.eqb (pv_modelFile project) "" then (v, None)
          else
            let ext := toLowerCase (split_pop "" (pv_modelFile project)) in
            let v1 :=
              {| modelRef := modelRef v;
                 objectUrlRef := None;
                 modelTypeRef := ext;
                 hasModel := hasModel v;
                 modelName := pv_modelFile project;
                 modelVisible := modelVisible v;
                 position := position v;
                 rotation := rotation v;
                 parts := parts v;
                 editingPartId := None;
                 projects := projects v;
                 currentProjectId := Some (pv_id project);
                 pendingNotes :=
                   js_or (pv_pendingNotes project) (JStr "") |} in
            (v1, (λ k, {| loader := k; url := modelUrl;
                          onLoaded := Some project |}) <$> loaderFor ext)
      end
  end.

(** *** The event loop around the component

    The page is single-threaded: user events and loader callbacks run one
    at a time. [inflight] holds the loads whose callback has not run. *)

Record World := {
  app : State;
  inflight : list Load;
}.

Inductive Event :=
| FileChosen (fileName objUrl : string)
| ProjectChosen (projectId : Z)
| Loaded (i : nat) (result : Object3D)
| LoadFailed (i : nat).

Definition started (w : World) (r : State * option Load) : World :=
  {| app := r.1;
     inflight := inflight w ++ from_option (λ l, [l]) [] r.2 |}.

(** One event. [None]: the event names a load that is not in flight. *)
Definition step (w : World) (e : Event) : option World :=
  match e with
  | FileChosen fileName objUrl =>
      Some (started w (handleFileChange fileName objUrl (app w)))
  | ProjectChosen projectId =>
      Some (started w (handleLoadProject projectId (app w)))
  | Loaded i result =>
      l ← inflight w !! i;
      Some {| app := onLoad l result (app w);
              inflight := delete i (inflight w) |}
  | LoadFailed i =>
      _ ← inflight w !! i;
      Some {| app := app w; inflight := delete i (inflight w) |}
  end.

Fixpoint run (w : World) (es : list Event) : option World :=
  match es with
  | [] => Some w
  | e :: es => w' ← step w e; run w' es
  end.

End Viewer.

(** ** The project server *)

Module Server.

(** One record of [projects.json]. *)
Record Project := {
  id : Z;
  name : jsval;
  author : string;
  date : string;
  slug : string;
  passwordHash : string;
  modelFile : string;
  position : option Vec3;
  rotation : option Vec3;
  partsMeta : option (gmap string PartMeta);
  pendingNotes : jsval;
}.

(** The store is what [loadDb()] returns and [saveDb] writes. *)
Abbreviation Db := (list Project).

(** What a handler sends. [Uncaught]: the handler threw outside a [try];
    express answers from its error handler with status 500, or, for an
    [async] handler, may not answer at all. *)
Inductive Reply :=
| Json (status : nat) (ok : bool) (projectId : option Z)
| Uncaught.

Definition fail (status : nat) : Reply := Json status false None.
Definition success : Reply := Json 200 true None.

(** How the file operations of one request end: all succeed; one of those
    up to and including [saveDb] throws; or [saveDb] succeeds and
    [writeSceneJson] throws. *)
Inductive Disk := DiskOk | FailsBeforeSave | FailsAfterSave.

(** [req.file] of multer. *)
Record Upload := { originalname : string; path : string }.

(** The multipart fields of [POST /api/projects]; an absent field is
    [None]. *)
Record CreateBody := {
  c_projectName : option string;
  c_author : option string;
  c_password : option string;
  c_date : option string;
  c_position : option string;
  c_rotation : option string;
  c_partsMeta : option string;
}.

Record TransformBody := {
  t_position : option Vec3;
  t_rotation : option Vec3;
  t_password : jsval;
}.

Record RenameBody := { r_name : jsval; r_password : jsval }.

Record NotesBody := { n_notes : jsval; n_password : jsval }.

Record PartsMetaBody := {
  pm_partId : jsval;
  pm_name : jsval;
  pm_notes : jsval;
  pm_color : jsval;
  pm_materialPreset : jsval;
  pm_password : jsval;
}.

Record DeleteBody := { d_password : jsval }.

Section Handlers.

(** [crypto.createHash("sha256").update(s).digest("hex")] *)
Variable hashPassword : string → string.
(** The chain [normalize("NFD")] ... [substring(0, 40)] of the slug. *)
Variable slugify : string → string.
(** [path.extname] *)
Variable extname : string → string.
(** [JSON.parse] at the type the store keeps: [None] when it throws, the
    parsed value otherwise ([Some None]: a falsy value such as [null]). *)
Variable parseVec3 : string → option (option Vec3).
Variable parsePartsMeta : string → option (option (gmap string PartMeta)).

(** [hashPassword(password)] on a body field: [update] throws on what is
    not a string. *)
Definition hashOf (password : jsval) : option string :=
  match password with
  | JStr s => Some (hashPassword s)
  | _ => None
  end.

(** [findProject(projects, id)], with the index of the record found. *)
Definition findProject (projects : Db) (reqId : string)
  : option (nat * Project) :=
  list_find (λ p, pretty (id p) = reqId) projects.

(** [`${id}-${slugify(name) || "proyecto"}`] *)
Definition slugFor (newId : Z) (projectName : string) : string :=
  let s := slugify projectName in
  pretty newId +:+ "-" +:+ (if String.eqb s "" then "proyecto" else s).

(** ["modelo" + (path.extname(file.originalname) || ".bin").toLowerCase()] *)
Definition modelFileName (file : Upload) : string :=
  let ext := extname (originalname file) in
  "modelo" +:+ toLowerCase (if String.eqb ext "" then ".bin" else ext).

(** [Math.max(x, ...xs)] *)
Definition Math_max (x : Z) (xs : list Z) : Z := foldl Z.max x xs.

(** [projects.length ? Math.max(...projects.map((p) => p.id)) + 1 : 1].
    The sum is the exact one, as it is in the code when the greatest id is
    a safe integer; from 2^53 on the sum of the code is rounded. *)
Definition newId (projects : Db) : Z :=
  match id <$> projects with
  | [] => 1
  | x :: xs => Math_max x xs + 1
  end.

Definition nonEmpty (o : option string) : option string :=
  match o with
  | Some s => if String.eqb s "" then None else Some s
  | None => None
  end.

(** [if (field) { try { v = JSON.parse(field) } catch { v = dflt } }] *)
Definition parsedOr {A : Type} (parse : string → option A) (dflt : A)
    (field : option string) : A :=
  match nonEmpty field with
  | None => dflt
  | Some s => default dflt (parse s)
  end.

(** [GET /api/projects] *)
Definition getProjects (projects : Db) : list Viewer.ProjectView :=
  (λ p, {| Viewer.pv_id := id p;
           Viewer.pv_name := name p;
           Viewer.pv_author := author p;
           Viewer.pv_date := date p;
           Viewer.pv_position := Some (default origin (position p));
           Viewer.pv_rotation := Some (default origin (rotation p));
           Viewer.pv_modelFile := modelFile p;
           Viewer.pv_modelUrl :=
             if String.eqb (modelFile p) "" then None
             else Some ("/public/" +:+ slug p +:+ "/" +:+ modelFile p);
           Viewer.pv_partsMeta := Some (default ∅ (partsMeta p));
           Viewer.pv_pendingNotes := js_or (pendingNotes p) (JStr "") |})
    <$> projects.

(** [POST /api/projects] *)
Definition postProject (file : option Upload) (body : CreateBody)
    (disk : Disk) (projects : Db) : Reply * Db :=
  match file, nonEmpty (c_projectName body), nonEmpty (c_password body) with
  | Some file, Some projectName, Some password =>
      let newId := newId projects in
      let newProject :=
        {| id := newId;
           name := JStr projectName;
           author := default "" (c_author body);
           date := default "" (c_date body);
           slug := slugFor newId projectName;
           passwordHash := hashPassword password;
           modelFile := modelFileName file;
           position := parsedOr parseVec3 (Some origin) (c_position body);
           rotation := parsedOr parseVec3 (Some origin) (c_rotation body);
           partsMeta := parsedOr parsePartsMeta (Some ∅) (c_partsMeta body);
           pendingNotes := JStr "" |} in
      match disk with
      | FailsBeforeSave => (fail 500, projects)
      | FailsAfterSave => (fail 500, projects ++ [newProject])
      | DiskOk => (Json 200 true (Some newId), projects ++ [newProject])
      end
  | _, _, _ => (fail 400, projects)
  end.

(** The three ends of a handler that saves inside a [try]. *)
Definition savedInTry (disk : Disk) (projects projects' : Db)
  : Reply * Db :=
  match disk with
  | FailsBeforeSave => (fail 500, projects)
  | FailsAfterSave => (fail 500, projects')
  | DiskOk => (success, projects')
  end.

(** The same for a handler that saves outside any [try]. *)
Definition savedBare (disk : Disk) (projects projects' : Db)
  : Reply * Db :=
  match disk with
  | FailsBeforeSave => (Uncaught, projects)
  | FailsAfterSave => (Uncaught, projects')
  | DiskOk => (success, projects')
  end.

Definition withModelFile (f : string) (p : Project) : Project :=
  {| id := id p; name := name p; author := author p; date := date p;
     slug := slug p; passwordHash := passwordHash p; modelFile := f;
     position := position p; rotation := rotation p;
     partsMeta := partsMeta p; pendingNotes := pendingNotes p |}.

(** [PUT /api/projects/:id/model] *)
Definition putModel (reqId : string) (file : option Upload) (disk : Disk)
    (projects : Db) : Reply * Db :=
  match file with
  | None => (fail 400, projects)
  | Some file =>
      match findProject projects reqId with
      | None =>
          match disk with
          | FailsBeforeSave => (fail 500, projects)
          | _ => (fail 404, projects)
          end
      | Some (i, project) =>
          savedInTry disk projects
            (<[i := withModelFile (modelFileName file) project]> projects)
      end
  end.

(** The checks that every password-protected route spells out, in this
    order: [!password], [findProject], [hashPassword], the comparison of
    the hashes. The result is the answer of a failed check, or the project
    and its index. *)
Definition authorized (projects : Db) (reqId : string) (password : jsval)
  : Reply + nat * Project :=
  if negb (truthy password) then inl (fail 400)
  else
    match findProject projects reqId with
    | None => inl (fail 404)
    | Some (i, project) =>
        match hashOf password with
        | None => inl Uncaught
        | Some hash =>
            if String.eqb hash (passwordHash project) then inr (i, project)
            else inl (fail 403)
        end
    end.

Definition withTransform (pos rot : option Vec3) (p : Project) : Project :=
  {| id := id p; name := name p; author := author p; date := date p;
     slug := slug p; passwordHash := passwordHash p;
     modelFile := modelFile p;
     position := pos; rotation := rot;
     partsMeta := partsMeta p; pendingNotes := pendingNotes p |}.

(** [PUT /api/projects/:id/transform] *)
Definition putTransform (reqId : string) (body : TransformBody)
    (disk : Disk) (projects : Db) : Reply * Db :=
  match authorized projects reqId (t_password body) with
  | inl r => (r, projects)
  | inr (i, project) =>
      let project' :=
        withTransform (Some (default origin (t_position body)))
                      (Some (default origin (t_rotation body))) project in
      savedBare disk projects (<[i := project']> projects)
  end.

Definition withName (n : jsval) (s : string) (p : Project) : Project :=
  {| id := id p; name := n; author := author p; date := date p;
     slug := s; passwordHash := passwordHash p;
     modelFile := modelFile p;
     position := position p; rotation := rotation p;
     partsMeta := partsMeta p; pendingNotes := pendingNotes p |}.

(** [PUT /api/projects/:id/rename] *)
Definition putRename (reqId : string) (body : RenameBody) (disk : Disk)
    (projects : Db) : Reply * Db :=
  if negb (truthy (r_name body)) then (fail 400, projects)
  else
    match authorized projects reqId (r_password body) with
    | inl r => (r, projects)
    | inr (i, project) =>
        let newSlug := slugFor (id project) (js_String (r_name body)) in
        savedInTry disk projects
          (<[i := withName (r_name body) newSlug project]> projects)
    end.

Definition withPendingNotes (n : jsval) (p : Project) : Project :=
  {| id := id p; name := name p; author := author p; date := date p;
     slug := slug p; passwordHash := passwordHash p;
     modelFile := modelFile p;
     position := position p; rotation := rotation p;
     partsMeta := partsMeta p; pendingNotes := n |}.

(** [PUT /api/projects/:id/notes] *)
Definition putNotes (reqId : string) (body : NotesBody) (disk : Disk)
    (projects : Db) : Reply * Db :=
  match authorized projects reqId (n_password body) with
  | inl r => (r, projects)
  | inr (i, project) =>
      savedBare disk projects
        (<[i := withPendingNotes (js_or (n_notes body) (JStr "")) project]>
           projects)
  end.

Definition withPartsMeta (m : gmap string PartMeta) (p : Project)
  : Project :=
  {| id := id p; name := name p; author := author p; date := date p;
     slug := slug p; passwordHash := passwordHash p;
     modelFile := modelFile p;
     position := position p; rotation := rotation p;
     partsMeta := Some m; pendingNotes := pendingNotes p |}.

(** [field !== undefined ? field : prev.field || dflt] *)
Definition merged (field prev : jsval) (dflt : string) : jsval :=
  if defined field then field else js_or prev (JStr dflt).

(** The entry that [PUT .../parts-meta] writes over [prev]. *)
Definition mergedMeta (body : PartsMetaBody) (prev : PartMeta) : PartMeta :=
  {| m_name := merged (pm_name body) (m_name prev) "";
     m_notes := merged (pm_notes body) (m_notes prev) "";
     m_color := merged (pm_color body) (m_color prev) "#22c55e";
     m_materialPreset :=
       merged (pm_materialPreset body) (m_materialPreset prev) "plastic" |}.

(** [project.partsMeta[key]]: the entry that [partsMeta] holds under
    [key], or else the member that it inherits under that name, read as
    an entry. *)
Definition entryAt (meta : gmap string PartMeta) (key : string)
  : option PartMeta :=
  match meta !! key with
  | Some entry => Some entry
  | None =>
      (λ n, {| m_name := n; m_notes := JUndefined; m_color := JUndefined;
               m_materialPreset := JUndefined |}) <$> inherited key
  end.

(** [project.partsMeta[key] = entry], as [saveDb] writes it afterwards.
    The assignment gives the object a property [key] of its own, except
    for the key [__proto__] of an object without such a property: that
    assignment goes to the inherited accessor and replaces the prototype
    of the object in memory, and [JSON.stringify] writes the properties
    of the object itself only. *)
Definition withEntry (key : string) (entry : PartMeta)
    (meta : gmap string PartMeta) : gmap string PartMeta :=
  if decide (key = "__proto__" ∧ meta !! key = None) then meta
  else <[key := entry]> meta.

(** [PUT /api/projects/:id/parts-meta] *)
Definition putPartsMeta (reqId : string) (body : PartsMetaBody)
    (disk : Disk) (projects : Db) : Reply * Db :=
  if negb (defined (pm_partId body)) then (fail 400, projects)
  else
    match authorized projects reqId (pm_password body) with
    | inl r => (r, projects)
    | inr (i, project) =>
        let meta := default ∅ (partsMeta project) in
        let key := js_String (pm_partId body) in
        let prev := default emptyMeta (entryAt meta key) in
        savedBare disk projects
          (<[i := withPartsMeta (withEntry key (mergedMeta body prev) meta)
                    project]> projects)
    end.

(** [DELETE /api/projects/:id]; after [saveDb] nothing is left that can
    fail. *)
Definition deleteProject (reqId : string) (body : DeleteBody) (disk : Disk)
    (projects : Db) : Reply * Db :=
  match authorized projects reqId (d_password body) with
  | inl r => (r, projects)
  | inr (i, _) =>
      match disk with
      | FailsBeforeSave => (fail 500, projects)
      | FailsAfterSave | DiskOk => (success, delete i projects)
      end
  end.

End Handlers.

End Server.

(** ** The panel of the viewer: layers, selection, saving *)

Module Panel.
Import Viewer.

Definition withModel (root : option Object3D) (v : State) : State :=
  {| modelRef := root;
     objectUrlRef := objectUrlRef v;
     modelTypeRef := modelTypeRef v;
     hasModel := hasModel v;
     modelName := modelName v;
     modelVisible := modelVisible v;
     position := position v;
     rotation := rotation v;
     parts := parts v;
     editingPartId := editingPartId v;
     projects := projects v;
     currentProjectId := currentProjectId v;
     pendingNotes := pendingNotes v |}.

Definition withParts (ps : list Part) (v : State) : State :=
  {| modelRef := modelRef v;
     objectUrlRef := objectUrlRef v;
     modelTypeRef := modelTypeRef v;
     hasModel := hasModel v;
     modelName := modelName v;
     modelVisible := modelVisible v;
     position := position v;
     rotation := rotation v;
     parts := ps;
     editingPartId := editingPartId v;
     projects := projects v;
     currentProjectId := currentProjectId v;
     pendingNotes := pendingNotes v |}.

Definition withEditing (e : option nat) (v : State) : State :=
  {| modelRef := modelRef v;
     objectUrlRef := objectUrlRef v;
     modelTypeRef := modelTypeRef v;
     hasModel := hasModel v;
     modelName := modelName v;
     modelVisible := modelVisible v;
     position := position v;
     rotation := rotation v;
     parts := parts v;
     editingPartId := e;
     projects := projects v;
     currentProjectId := currentProjectId v;
     pendingNotes := pendingNotes v |}.

(** [modelRef.current.traverse(callback)] for a callback that closes over
    no variable it writes. *)
Definition eachNode (callback : NodeData → NodeData) (root : Object3D)
  : Object3D :=
  (traverse (λ (_ : unit) child, (tt, callback child)) tt root).2.

(** [parts.find((p) => p.id === id)] *)
Definition findPart (partId : nat) (ps : list Part) : option Part :=
  snd <$> list_find (λ p, id p = partId) ps.

(** [{ ...p, visible: value }] and its like. *)
Definition setVisible (value : bool) (p : Part) : Part :=
  {| id := id p; name := name p; visible := value; color := color p;
     materialPreset := materialPreset p; notes := notes p |}.
Definition setName (n : jsval) (p : Part) : Part :=
  {| id := id p; name := n; visible := visible p; color := color p;
     materialPreset := materialPreset p; notes := notes p |}.
Definition setNotes (n : jsval) (p : Part) : Part :=
  {| id := id p; name := name p; visible := visible p; color := color p;
     materialPreset := materialPreset p; notes := n |}.
Definition setColor (c : jsval) (p : Part) : Part :=
  {| id := id p; name := name p; visible := visible p; color := c;
     materialPreset := materialPreset p; notes := notes p |}.
Definition setPreset (m : jsval) (p : Part) : Part :=
  {| id := id p; name := name p; visible := visible p; color := color p;
     materialPreset := m; notes := notes p |}.

(** [prev.map((p) => (p.id === id ? f(p) : p))] *)
Definition onPart (partId : nat) (f : Part → Part) (prev : list Part)
  : list Part :=
  (λ p, if decide (id p = partId) then f p else p) <$> prev.

Definition withNodeVisible (value : bool) (child : NodeData) : NodeData :=
  {| isMesh := isMesh child; nodeName := nodeName child;
     nodeVisible := value; material := material child;
     userData := userData child |}.

(** The callback of [updatePartMeshAppearance]. The [materialPreset] tag,
    which nothing reads, is kept in its string form. The presets are
    looked up among the five of the table. *)
Definition restyled (partId : nat) (colorHex presetKey : jsval)
    (child : NodeData) : NodeData :=
  let presetName := js_or presetKey (JStr "plastic") in
  let preset := presetOf (js_String presetName) in
  let color := js_or colorHex (JStr "#ffffff") in
  if isMesh child && bool_decide (Viewer.partId (userData child) = Some partId)
  then
    {| isMesh := isMesh child;
       nodeName := nodeName child;
       nodeVisible := nodeVisible child;
       material :=
         match material child with
         | PhongMaterial m =>
             PhongMaterial
               {| ph_color := color;
                  ph_shininess := shininess preset;
                  ph_specular := specular preset;
                  ph_transparent := transparent preset;
                  ph_opacity := opacity preset;
                  ph_side := ph_side m;
                  ph_version := S (ph_version m) |}
         | NoMaterial | OtherMaterial =>
             createMaterialForPart color (js_String presetName)
         end;
       userData :=
         {| Viewer.partId := Viewer.partId (userData child);
            baseColor := Some color;
            ud_materialPreset := Some (js_String presetName) |} |}
  else child.

(** [updatePartMeshAppearance(partId, colorHex, presetKey)] *)
Definition updatePartMeshAppearance (partId : nat)
    (colorHex presetKey : jsval) (v : State) : State :=
  match modelRef v with
  | None => v
  | Some root =>
      withModel (Some (eachNode (restyled partId colorHex presetKey) root)) v
  end.

(** [setAllPartsVisible(value)] *)
Definition setAllPartsVisible (value : bool) (v : State) : State :=
  let v1 := withParts (setVisible value <$> parts v) v in
  match modelRef v1 with
  | None => v1
  | Some root =>
      withModel
        (Some (eachNode
                 (λ child,
                    if isMesh child
                       && bool_decide (is_Some (partId (userData child)))
                    then withNodeVisible value child else child) root)) v1
  end.

(** [handleTogglePartVisible(id, checked)] *)
Definition handleTogglePartVisible (partId : nat) (checked : bool)
    (v : State) : State :=
  let v1 := withParts (onPart partId (setVisible checked) (parts v)) v in
  match modelRef v1 with
  | None => v1
  | Some root =>
      withModel
        (Some (eachNode
                 (λ child,
                    if isMesh child
                       && bool_decide
                            (Viewer.partId (userData child) = Some partId)
                    then withNodeVisible checked child else child) root)) v1
  end.

(** [handleChangePartName(id, newName)] *)
Definition handleChangePartName (partId : nat) (newName : string)
    (v : State) : State :=
  withParts (onPart partId (setName (JStr newName)) (parts v)) v.

(** [handleChangePartNotes(id, newNotes)] *)
Definition handleChangePartNotes (partId : nat) (newNotes : string)
    (v : State) : State :=
  withParts (onPart partId (setNotes (JStr newNotes)) (parts v)) v.

(** [handleChangePartColor(id, newColor)]. [partsRef.current] is the part
    list of the last render, which is the one of the state when a user
    event arrives. *)
Definition handleChangePartColor (partId : nat) (newColor : string)
    (v : State) : State :=
  let partsRef := parts v in
  let v1 := withParts (onPart partId (setColor (JStr newColor)) (parts v)) v in
  let preset :=
    js_or (from_option materialPreset JUndefined (findPart partId partsRef))
          (JStr "plastic") in
  updatePartMeshAppearance partId (JStr newColor) preset v1.

(** [handleChangePartMaterial(id, newPreset)] *)
Definition handleChangePartMaterial (partId : nat) (newPreset : string)
    (v : State) : State :=
  let partsRef := parts v in
  let v1 :=
    withParts (onPart partId (setPreset (JStr newPreset)) (parts v)) v in
  let colorHex :=
    js_or (from_option color JUndefined (findPart partId partsRef))
          (JStr "#ffffff") in
  updatePartMeshAppearance partId colorHex (JStr newPreset) v1.

(** The button "Detalles capa":
    [setEditingPartId(editingPartId === part.id ? null : part.id)] *)
Definition toggleDetails (partId : nat) (v : State) : State :=
  withEditing
    (if decide (editingPartId v = Some partId) then None else Some partId) v.

(** *** Selecting a part with the pointer *)

(** An object met by the ray: its [userData.partId] and those of its
    ancestors, the parent first, up to the object that has no parent. *)
Record Hit := {
  tag : option nat;
  ancestors : list (option nat);
}.

(** [while (obj && !obj.userData?.partId && obj.parent) obj = obj.parent],
    then the [partId] of the object reached. *)
Fixpoint climb (t : option nat) (parents : list (option nat)) : option nat :=
  match t with
  | Some (S _) => t
  | Some 0 | None =>
      match parents with
      | [] => t
      | parent :: rest => climb parent rest
      end
  end.

(** The loop over [intersects]: the first object whose climb ends on a
    numeric [partId]. *)
Fixpoint hitMesh (intersects : list Hit) : option nat :=
  match intersects with
  | [] => None
  | inter :: rest =>
      match climb (tag inter) (ancestors inter) with
      | Some partId => Some partId
      | None => hitMesh rest
      end
  end.

(** [selectedPartInfo] *)
Record PartInfo := {
  info_id : nat;
  info_name : jsval;
  info_notes : jsval;
}.

(** The component with the state that [State] leaves out. *)
Record Page := {
  world : World;
  selectedPartInfo : option PartInfo;
}.

Definition onApp (f : State → State) (pg : Page) : Page :=
  {| world := {| app := f (app (world pg));
                 inflight := inflight (world pg) |};
     selectedPartInfo := selectedPartInfo pg |}.

(** [handleClickOnCanvas(event)], given what the ray meets, nearest
    first. *)
Definition handleClickOnCanvas (intersects : list Hit) (pg : Page) : Page :=
  match hitMesh intersects with
  | None => pg
  | Some partId =>
      match findPart partId (parts (app (world pg))) with
      | None => pg
      | Some part =>
          {| world := {| app := withEditing (Some partId) (app (world pg));
                         inflight := inflight (world pg) |};
             selectedPartInfo :=
               Some {| info_id := partId;
                       info_name := name part;
                       info_notes := js_or (notes part) (JStr "") |} |}
      end
  end.

(** *** What the component sends to the store *)

(** [partsMetaToSave] of [handleCreateProject]. *)
Definition savedEntry (p : Part) : PartMeta :=
  {| m_name := name p;
     m_notes := js_or (notes p) (JStr "");
     m_color := color p;
     m_materialPreset := materialPreset p |}.

Definition partsMetaToSave (ps : list Part) : gmap string PartMeta :=
  foldl (λ meta p, <[pretty (id p) := savedEntry p]> meta) ∅ ps.

(** The request of [handleSavePartMeta(partId)]: the id in the URL and
    the JSON body; [pwd] is what [window.prompt] returns ([None] when the
    user cancels). No request is sent without a current project, a part
    with this id or a password. *)
Definition savePartMetaRequest (partId : nat) (pwd : option string)
    (v : State) : option (string * Server.PartsMetaBody) :=
  match currentProjectId v with
  | None => None
  | Some projectId =>
      if (projectId =? 0)%Z then None
      else
        match findPart partId (parts v), pwd with
        | Some part, Some pwd =>
            if String.eqb pwd "" then None
            else
              Some (pretty projectId,
                    {| Server.pm_partId := JNum (Z.of_nat partId);
                       Server.pm_name := name part;
                       Server.pm_notes := js_or (notes part) (JStr "");
                       Server.pm_color :=
                         js_or (color part) (JStr "#22c55e");
                       Server.pm_materialPreset :=
                         js_or (materialPreset part) (JStr "plastic");
                       Server.pm_password := JStr pwd |})
        | _, _ => None
        end
  end.

(** *** Everything the user and the loaders can do *)

Inductive Action :=
| LoadEvent (e : Event)
| AllPartsVisible (value : bool)
| TogglePartVisible (partId : nat) (checked : bool)
| ChangePartName (partId : nat) (newName : string)
| ChangePartNotes (partId : nat) (newNotes : string)
| ChangePartColor (partId : nat) (newColor : string)
| ChangePartMaterial (partId : nat) (newPreset : string)
| ToggleDetails (partId : nat)
| Click (intersects : list Hit).

Definition act (pg : Page) (a : Action) : option Page :=
  match a with
  | LoadEvent e =>
      w ← step (world pg) e;
      Some {| world := w; selectedPartInfo := selectedPartInfo pg |}
  | AllPartsVisible value => Some (onApp (setAllPartsVisible value) pg)
  | TogglePartVisible partId checked =>
      Some (onApp (handleTogglePartVisible partId checked) pg)
  | ChangePartName partId newName =>
      Some (onApp (handleChangePartName partId newName) pg)
  | ChangePartNotes partId newNotes =>
      Some (onApp (handleChangePartNotes partId newNotes) pg)
  | ChangePartColor partId newColor =>
      Some (onApp (handleChangePartColor partId newColor) pg)
  | ChangePartMaterial partId newPreset =>
      Some (onApp (handleChangePartMaterial partId newPreset) pg)
  | ToggleDetails partId => Some (onApp (toggleDetails partId) pg)
  | Click intersects => Some (handleClickOnCanvas intersects pg)
  end.

Fixpoint acts (pg : Page) (l : list Action) : option Page :=
  match l with
  | [] => Some pg
  | a :: l => pg' ← act pg a; acts pg' l
  end.

End Panel.

(** ** The rows of a quotation *)

Module Cotizacion.

Section Rows.

(** The numbers of a row are kept as they are: no arithmetic is done on
    them here. [one] and [zero] are the 1 and 0 of a new row. *)
Variable Amount : Type.
Variable one zero : Amount.
(** [s.trim()] *)
Variable trim : string → string.

Record Item := {
  concepto : string;
  cantidad : Amount;
  precio : Amount;
  link : string;
}.

(** [{ concepto: "", cantidad: 1, precio: 0, link: "" }] *)
Definition blankRow : Item :=
  {| concepto := ""; cantidad := one; precio := zero; link := "" |}.

(** [useState([...])] of [items]. *)
Definition initialItems : list Item := [blankRow].

(** [handleAddRow()] *)
Definition handleAddRow (prev : list Item) : list Item := prev ++ [blankRow].

(** [handleRemoveRow(index)]; [prev.filter((_, i) => i !== index)]
    removes the row at [index] and nothing when there is none. *)
Definition handleRemoveRow (index : nat) (prev : list Item) : list Item :=
  if decide (length prev = 1) then [blankRow] else delete index prev.

(** What [loadQuote] hands to [setItems] for the rows it has read. *)
Definition loadedRows (loadedItems : list Item) : list Item :=
  match loadedItems with
  | [] => [blankRow]
  | _ :: _ => loadedItems
  end.

(** [handleOpenLink(link)]: the URL given to [window.open], if any. *)
Definition handleOpenLink (link : string) : option string :=
  let url := trim link in
  if String.eqb url "" then None
  else if String.prefix "http://" url || String.prefix "https://" url
       then Some url
       else Some ("https://" +:+ url).

Inductive RowAction :=
| AddRow
| RemoveRow (index : nat)
| QuoteLoaded (loadedItems : list Item).

Definition rowStep (items : list Item) (a : RowAction) : list Item :=
  match a with
  | AddRow => handleAddRow items
  | RemoveRow index => handleRemoveRow index items
  | QuoteLoaded loadedItems => loadedRows loadedItems
  end.

End Rows.

End Cotizacion.

(** ** The routes of the server, as express dispatches them *)

Module Routes.
Import Server.

Inductive Request :=
| PostProject (file : option Upload) (body : CreateBody)
| PutModel (reqId : string) (file : option Upload)
| PutTransform (reqId : string) (body : TransformBody)
| PutRename (reqId : string) (body : RenameBody)
| PutNotes (reqId : string) (body : NotesBody)
| PutPartsMeta (reqId : string) (body : PartsMetaBody)
| DeleteProject (reqId : string) (body : DeleteBody).

Section Router.

Variable hashPassword : string → string.
Variable slugify : string → string.
Variable extname : string → string.
Variable parseVec3 : string → option (option Vec3).
Variable parsePartsMeta : string → option (option (gmap string PartMeta)).

Definition handle (req : Request) (disk : Disk) (projects : Db)
  : Reply * Db :=
  match req with
  | PostProject file body =>
      postProject hashPassword slugify extname parseVec3 parsePartsMeta
        file body disk projects
  | PutModel reqId file => putModel extname reqId file disk projects
  | PutTransform reqId body =>
      putTransform hashPassword reqId body disk projects
  | PutRename reqId body =>
      putRename hashPassword slugify reqId body disk projects
  | PutNotes reqId body => putNotes hashPassword reqId body disk projects
  | PutPartsMeta reqId body =>
      putPartsMeta hashPassword reqId body disk projects
  | DeleteProject reqId body =>
      deleteProject hashPassword reqId body disk projects
  end.

(** The store after a sequence of requests, each with the outcome of its
    file operations. *)
Definition serve (projects : Db) (reqs : list (Request * Disk)) : Db :=
  foldl (λ db rd, (handle rd.1 rd.2 db).2) projects reqs.

End Router.

End Routes.

(** * Properties of the part pipeline *)

Module ViewerFacts.
Import Viewer.

(** ** The traversal *)

(** Induction on a tree, with the hypothesis on every child. *)
Lemma Object3D_ind (P : Object3D → Prop) :
  (∀ d cs, Forall P cs → P (Obj d cs)) → ∀ o, P o.
Proof.
  intros step. fix self 1. intros [d cs]. apply step.
  induction cs as [|c cs IH]; constructor; [apply self | exact IH].
Qed.

(** The children loop of [traverse] and of [preorder], named. *)
Definition traverseEach {S : Type} (callback : S → NodeData → S * NodeData)
  : S → list Object3D → S * list Object3D :=
  fix each (s : S) (cs : list Object3D) : S * list Object3D :=
    match cs with
    | [] => (s, [])
    | c :: rest =>
        let '(s', c') := traverse callback s c in
        let '(s'', rest') := each s' rest in
        (s'', c' :: rest')
    end.

Definition preorderEach : list Object3D → list NodeData :=
  fix all (cs : list Object3D) : list NodeData :=
    match cs with
    | [] => []
    | c :: rest => preorder c ++ all rest
    end.

(** The nodes that a callback leaves behind on a sequence of visits. *)
Fixpoint visited {S : Type} (callback : S → NodeData → S * NodeData)
    (s : S) (ds : list NodeData) : list NodeData :=
  match ds with
  | [] => []
  | d :: ds => (callback s d).2 :: visited callback (callback s d).1 ds
  end.

Definition after {S : Type} (callback : S → NodeData → S * NodeData)
  : S → list NodeData → S :=
  foldl (λ s d, (callback s d).1).

Lemma after_app {S} (f : S → NodeData → S * NodeData) s ds1 ds2 :
  after f s (ds1 ++ ds2) = after f (after f s ds1) ds2.
Proof. apply foldl_app. Qed.

Lemma visited_app {S} (f : S → NodeData → S * NodeData) s ds1 ds2 :
  visited f s (ds1 ++ ds2) = visited f s ds1 ++ visited f (after f s ds1) ds2.
Proof.
  revert s. induction ds1 as [|d ds1 IH]; intros s; simpl; [done|].
  by rewrite IH.
Qed.

(** [traverse] calls the callback on the nodes in [preorder]. *)
Lemma traverse_preorder {S} (f : S → NodeData → S * NodeData) o :
  ∀ s, (traverse f s o).1 = after f s (preorder o)
       ∧ preorder (traverse f s o).2 = visited f s (preorder o).
Proof.
  induction o as [d cs IH] using Object3D_ind. intros s.
  change (traverse f s (Obj d cs))
    with (let '(s1, d1) := f s d in
          let '(s2, cs') := traverseEach f s1 cs in (s2, Obj d1 cs')).
  change (preorder (Obj d cs)) with (d :: preorderEach cs).
  destruct (f s d) as [s1 d1] eqn:Hf.
  assert (Hcs : ∀ s, (traverseEach f s cs).1 = after f s (preorderEach cs)
                ∧ preorderEach (traverseEach f s cs).2
                  = visited f s (preorderEach cs)).
  { clear Hf. induction IH as [|c cs Hc _ IHcs]; intros s'; [done|].
    simpl. destruct (traverse f s' c) as [s'' c'] eqn:Hc'.
    destruct (Hc s') as [Hc1 Hc2]. rewrite Hc' in Hc1, Hc2. simpl in *.
    destruct (traverseEach f s'' cs) as [s3 cs'] eqn:Hr.
    destruct (IHcs s'') as [Hr1 Hr2]. rewrite Hr in Hr1, Hr2. simpl in *.
    rewrite after_app, visited_app, <- Hc1, Hc2, Hr2. by subst. }
  destruct (traverseEach f s1 cs) as [s2 cs'] eqn:Hr.
  destruct (Hcs s1) as [H1 H2]. rewrite Hr in H1, H2.
  cbn [fst snd] in *. split.
  - unfold after in *. cbn [foldl]. by rewrite Hf.
  - change (preorder (Obj d1 cs')) with (d1 :: preorderEach cs').
    cbn [visited]. by rewrite Hf, H2.
Qed.

(** ** The indexer on a sequence of nodes *)

Definition isMeshP (d : NodeData) : Prop := isMesh d.

Lemma meshes_eq o : meshes o = filter isMeshP (preorder o).
Proof. reflexivity. Qed.

Lemma filter_mesh_cons d ds :
  filter isMeshP (d :: ds)
  = if isMesh d then d :: filter isMeshP ds else filter isMeshP ds.
Proof.
  rewrite filter_cons. unfold isMeshP at 1.
  case_decide as H; destruct (isMesh d); naive_solver.
Qed.

Lemma stampPart_mesh index newParts d :
  isMesh d = true →
  stampPart (index, newParts) d
  = ((S index, newParts ++ [freshPart index d]), stamped index d).
Proof. intros H. unfold stampPart. by rewrite H. Qed.

Lemma stampPart_other s d : isMesh d = false → stampPart s d = (s, d).
Proof. intros H. destruct s. unfold stampPart. by rewrite H. Qed.

Lemma stampPart_after ds : ∀ index newParts,
  after stampPart (index, newParts) ds
  = (index + length (filter isMeshP ds),
     newParts ++ imap (λ i d, freshPart (index + i) d) (filter isMeshP ds)).
Proof.
  induction ds as [|d ds IH]; intros index newParts.
  - simpl. by rewrite Nat.add_0_r, app_nil_r.
  - unfold after in *. cbn [foldl]. rewrite filter_mesh_cons.
    destruct (isMesh d) eqn:Hd.
    + rewrite (stampPart_mesh _ _ _ Hd). cbn [fst]. rewrite IH.
      cbn [length imap]. rewrite <- app_assoc. f_equal; [lia|].
      f_equal. simpl. rewrite Nat.add_0_r. f_equal.
      apply imap_ext. intros i x _. simpl. f_equal. lia.
    + rewrite (stampPart_other _ _ Hd). apply IH.
Qed.

Lemma stampPart_visited ds : ∀ index newParts,
  (λ d, partId (userData d))
    <$> filter isMeshP (visited stampPart (index, newParts) ds)
  = Some <$> seq index (length (filter isMeshP ds)).
Proof.
  induction ds as [|d ds IH]; intros index newParts; [done|].
  cbn [visited]. rewrite !filter_mesh_cons.
  destruct (isMesh d) eqn:Hd.
  - rewrite (stampPart_mesh _ _ _ Hd). cbn [fst snd isMesh stamped].
    rewrite Hd. cbn [length seq fmap list_fmap]. f_equal. apply IH.
  - rewrite (stampPart_other _ _ Hd). cbn [fst snd]. rewrite Hd. apply IH.
Qed.

(** What the indexer reads of a node. *)
Definition shape (d : NodeData) : bool * string * bool :=
  (isMesh d, nodeName d, nodeVisible d).

Lemma stampPart_shape s d : shape (stampPart s d).2 = shape d.
Proof.
  destruct s as [index newParts]. unfold stampPart.
  by destruct (isMesh d) eqn:E.
Qed.

Lemma stampPart_reads_shape s d d' :
  shape d' = shape d → (stampPart s d').1 = (stampPart s d).1.
Proof.
  destruct s as [index newParts]. unfold shape, stampPart, freshPart.
  intros [= -> -> ->]. by destruct (isMesh d).
Qed.

Lemma stampPart_again ds : ∀ s s',
  after stampPart s (visited stampPart s' ds) = after stampPart s ds.
Proof.
  induction ds as [|d ds IH]; intros s s'; [done|].
  unfold after in *. cbn [visited foldl].
  rewrite (stampPart_reads_shape s d) by apply stampPart_shape. apply IH.
Qed.

Lemma stampPart_tags_again ds : ∀ s,
  userData <$> visited stampPart s (visited stampPart s ds)
  = userData <$> visited stampPart s ds.
Proof.
  induction ds as [|d ds IH]; intros s; [done|].
  cbn [visited fmap list_fmap]. f_equal.
  - destruct s as [index newParts]. destruct (isMesh d) eqn:Hd.
    + rewrite (stampPart_mesh _ _ _ Hd). cbn [fst snd].
      by rewrite stampPart_mesh.
    + rewrite (stampPart_other _ _ Hd). cbn [snd].
      by rewrite (stampPart_other _ _ Hd).
  - rewrite (stampPart_reads_shape s d) by apply stampPart_shape. apply IH.
Qed.

(** [updatePartsFromRoot] in terms of the meshes of the tree. *)
Lemma updatePartsFromRoot_eq root :
  updatePartsFromRoot root
  = ((traverse stampPart (0, []) root).2,
     imap freshPart (meshes root)).
Proof.
  unfold updatePartsFromRoot.
  destruct (traverse_preorder stampPart root (0, [])) as [H _].
  destruct (traverse stampPart (0, []) root) as [[index newParts] root'].
  cbn [fst snd] in *. rewrite stampPart_after in H.
  injection H as _ ->. reflexivity.
Qed.

Lemma stamped_tree_preorder root :
  preorder (updatePartsFromRoot root).1
  = visited stampPart (0, []) (preorder root).
Proof.
  rewrite updatePartsFromRoot_eq. cbn [fst].
  apply (traverse_preorder stampPart root (0, [])).
Qed.

(** ** PartIndexer *)

(** C4. For a tree with [M] mesh nodes, [updatePartsFromRoot] produces
    exactly [M] parts; their ids are [0, 1, ..., M-1] in this order, so each
    id appears once; the part at place [i] is the one built from the [i]-th
    mesh met by the depth-first traversal ([meshes], a node before its
    children, the children in order); and the tags left on the meshes of
    the tree, read in the same order, are [0, ..., M-1]. *)
Theorem updatePartsFromRoot_dense_ids (root : Object3D) :
  let M := length (meshes root) in
  let root' := (updatePartsFromRoot root).1 in
  let newParts := (updatePartsFromRoot root).2 in
  length newParts = M
  ∧ id <$> newParts = seq 0 M
  ∧ NoDup (id <$> newParts)
  ∧ newParts = imap freshPart (meshes root)
  ∧ (λ d, partId (userData d)) <$> meshes root' = Some <$> seq 0 M.
Proof.
  intros M root' newParts.
  assert (Hparts : newParts = imap freshPart (meshes root)).
  { unfold newParts. by rewrite updatePartsFromRoot_eq. }
  assert (Hids : id <$> newParts = seq 0 M).
  { rewrite Hparts. unfold M. generalize (meshes root). intros ds.
    apply list_eq. intros i. rewrite list_lookup_fmap, list_lookup_imap.
    destruct (ds !! i) as [d|] eqn:Hi; simpl.
    - symmetry. apply lookup_seq. split; [done|].
      by apply lookup_lt_Some in Hi.
    - symmetry. apply lookup_ge_None. rewrite length_seq.
      by apply lookup_ge_None in Hi. }
  split_and!.
  - rewrite Hparts. apply length_imap.
  - exact Hids.
  - rewrite Hids. apply NoDup_seq.
  - exact Hparts.
  - unfold root'. rewrite meshes_eq, stamped_tree_preorder.
    apply stampPart_visited.
Qed.

(** C7. Running [updatePartsFromRoot] again on the tree that a first run
    has stamped produces the same list of parts (so the same ids in the same
    order), and leaves on every node the tags that the first run left. *)
Theorem updatePartsFromRoot_idempotent (root : Object3D) :
  let first := updatePartsFromRoot root in
  let second := updatePartsFromRoot first.1 in
  second.2 = first.2
  ∧ id <$> second.2 = id <$> first.2
  ∧ userData <$> preorder second.1 = userData <$> preorder first.1.
Proof.
  intros first second.
  assert (H2 : second.2 = first.2).
  { unfold second, first. rewrite (updatePartsFromRoot_eq _.1). cbn [snd].
    rewrite (updatePartsFromRoot_eq root) at 2. cbn [snd].
    rewrite !meshes_eq, stamped_tree_preorder.
    pose proof (stampPart_again (preorder root) (0, []) (0, [])) as H.
    rewrite !stampPart_after in H. by injection H. }
  split_and!; [done | by rewrite H2 |].
  unfold second. rewrite stamped_tree_preorder. unfold first.
  rewrite stamped_tree_preorder. apply stampPart_tags_again.
Qed.

(** C8. The part that [updatePartsFromRoot] builds at place [i] has id
    [i]; its name is the name of the [i]-th mesh when that name is not
    empty and "Parte " followed by [i+1] otherwise; its colour is entry
    [i mod 8] of the palette, which has 8 entries; its material preset is
    "plastic"; its notes are the empty string. *)
Theorem fresh_part_defaults (root : Object3D) (i : nat) (p : Part) :
  (updatePartsFromRoot root).2 !! i = Some p →
  ∃ d, meshes root !! i = Some d
    ∧ id p = i
    ∧ name p = JStr (if String.eqb (nodeName d) ""
                     then "Parte " +:+ pretty (i + 1) else nodeName d)
    ∧ length PART_COLORS = 8
    ∧ (∃ c, PART_COLORS !! (i `mod` 8) = Some c ∧ color p = JStr c)
    ∧ materialPreset p = JStr "plastic"
    ∧ notes p = JStr "".
Proof.
  rewrite updatePartsFromRoot_eq. cbn [snd]. rewrite list_lookup_imap.
  destruct (meshes root !! i) as [d|]; [|done]. intros [= <-].
  exists d. split_and!; try done.
  - unfold freshPart, js_or. cbn [name truthy].
    by destruct (String.eqb (nodeName d) "").
  - assert (Hlt : i `mod` 8 < length PART_COLORS).
    { change (length PART_COLORS) with 8. apply Nat.mod_upper_bound. lia. }
    destruct (lookup_lt_is_Some_2 _ _ Hlt) as [c Hc]. exists c.
    split; [done|]. unfold freshPart, getPartColor. cbn [color].
    change (length PART_COLORS) with 8. by rewrite Hc.
Qed.

(** A bracket with three meshes under a group; the second mesh has no
    name. *)
Definition meshData (n : string) : NodeData :=
  {| isMesh := true; nodeName := n; nodeVisible := true;
     material := OtherMaterial; userData := noUserData |}.
Definition mesh (n : string) : Object3D := Obj (meshData n) [].
Definition group (cs : list Object3D) : Object3D :=
  Obj {| isMesh := false; nodeName := "grupo"; nodeVisible := true;
         material := NoMaterial; userData := noUserData |} cs.
Definition bracket : Object3D :=
  group [ mesh "base"; group [ mesh ""; mesh "tapa" ] ].

Lemma fresh_part_defaults_witness :
  ∃ d, meshes bracket !! 1 = Some d
    ∧ id (freshPart 1 d) = 1
    ∧ name (freshPart 1 d) = JStr "Parte 2".
Proof.
  destruct (fresh_part_defaults bracket 1 (freshPart 1 (meshData "")))
    as (d & Hd & Hid & Hname & _).
  - vm_compute. reflexivity.
  - exists d. split; [exact Hd|].
    assert (d = meshData "") as ->
      by (vm_compute in Hd; injection Hd as <-; reflexivity).
    split; vm_compute; reflexivity.
Defined.

(** ** MetaReconciler *)

(** A numeric id and its string form are one property key. *)
Lemma property_key (n : nat) : js_String (JNum (Z.of_nat n)) = pretty n.
Proof. by destruct n. Qed.

Lemma metaFor_lookup (meta : gmap string PartMeta) p :
  metaFor meta p = meta !! pretty (id p).
Proof.
  unfold metaFor. rewrite property_key. by destruct (meta !! pretty (id p)).
Qed.

(** The entry, if any, that a project holds for a part. *)
Definition entryOf (project : option ProjectView) (p : Part)
  : option PartMeta :=
  meta ← project ≫= pv_partsMeta; meta !! pretty (id p).

Definition part0 : Part :=
  {| id := 0; name := JStr "Parte 1"; visible := true;
     color := JStr "#f97316"; materialPreset := JStr "plastic";
     notes := JStr "" |}.

Definition savedUnnamed : PartMeta :=
  {| m_name := JStr ""; m_notes := JStr "revisar"; m_color := JStr "#ff0000";
     m_materialPreset := JStr "metal" |}.

Definition projectWith (meta : gmap string PartMeta) : ProjectView :=
  {| pv_id := 1; pv_name := JStr "Bracket v1"; pv_author := "";
     pv_date := ""; pv_position := Some origin; pv_rotation := Some origin;
     pv_modelFile := "modelo.obj";
     pv_modelUrl := Some "/public/1-bracket-v1/modelo.obj";
     pv_partsMeta := Some meta; pv_pendingNotes := JStr "" |}.

(** C3, as stated, fails: an entry that has a [name] field holding the
    empty string does not give the part its name; the part keeps its own
    (here "Parte 1"), although the field is not absent. *)
Lemma applyProjectPartsMeta_keeps_name_on_empty :
  ¬ (∀ (project : ProjectView) (meta : gmap string PartMeta)
       (parts : list Part) (i : nat) (p : Part) (m : PartMeta),
       pv_partsMeta project = Some meta →
       parts !! i = Some p →
       meta !! pretty (id p) = Some m →
       ∃ p', applyProjectPartsMeta (Some project) parts !! i = Some p'
         ∧ name p' = (if defined (m_name m) then m_name m else name p)
         ∧ notes p' = (if defined (m_notes m) then m_notes m else notes p)
         ∧ color p' = (if defined (m_color m) then m_color m else color p)
         ∧ materialPreset p'
           = (if defined (m_materialPreset m) then m_materialPreset m
              else materialPreset p)).
Proof.
  intros H.
  destruct (H (projectWith {["0" := savedUnnamed]}) {["0" := savedUnnamed]}
              [part0] 0 part0 savedUnnamed)
    as (p' & Hp' & Hname & _); [done | done | by vm_compute |].
  vm_compute in Hp'. injection Hp' as <-. discriminate Hname.
Qed.

(** C3, amended. The result has the length of the input, and the part at
    each place keeps its id and its visibility. A part without an entry
    under the string form of its id (the key its numeric id is converted
    to) is returned as it is. For a part with an entry, name, colour and
    material preset come from the entry when its value is truthy (present
    and not empty) and are the part's own otherwise (for colour and
    preset, "#22c55e" and "plastic" when the part's own is falsy too);
    notes come from the entry exactly when it has a [notes] field, and
    are the part's own otherwise ("" when these are falsy). The input list
    is a value here, so it cannot be changed. *)
Theorem applyProjectPartsMeta_overlay (project : option ProjectView)
    (parts : list Part) (i : nat) (p : Part) :
  parts !! i = Some p →
  length (applyProjectPartsMeta project parts) = length parts
  ∧ ∃ p', applyProjectPartsMeta project parts !! i = Some p'
      ∧ id p' = id p
      ∧ visible p' = visible p
      ∧ match entryOf project p with
        | None => p' = p
        | Some m =>
            name p' = (if truthy (m_name m) then m_name m else name p)
            ∧ notes p' = (if defined (m_notes m) then m_notes m
                          else js_or (notes p) (JStr ""))
            ∧ color p' = (if truthy (m_color m) then m_color m
                          else js_or (color p) (JStr "#22c55e"))
            ∧ materialPreset p'
              = (if truthy (m_materialPreset m) then m_materialPreset m
                 else js_or (materialPreset p) (JStr "plastic"))
        end.
Proof.
  intros Hp. unfold applyProjectPartsMeta, entryOf.
  destruct project as [project|]; cbn [mbind option_bind];
    [destruct (pv_partsMeta project) as [meta|]; cbn [mbind option_bind]|];
    try (split; [done | by exists p]).
  split; [apply length_fmap|].
  rewrite list_lookup_fmap, Hp. cbn [fmap option_fmap option_map].
  rewrite metaFor_lookup. eexists. split; [reflexivity|].
  destruct (meta !! pretty (id p)) as [m|]; [|done].
  unfold overlay, js_or. cbn [id visible name notes color materialPreset].
  split_and!; try done.
  - by destruct (truthy (m_color m)) eqn:E; [rewrite E|].
  - by destruct (truthy (m_materialPreset m)) eqn:E; [rewrite E|].
Qed.

Lemma applyProjectPartsMeta_overlay_witness :
  ∃ p', applyProjectPartsMeta
          (Some (projectWith {["0" := savedUnnamed]})) [part0] !! 0
        = Some p'
      ∧ name p' = JStr "Parte 1" ∧ color p' = JStr "#ff0000".
Proof.
  destruct (applyProjectPartsMeta_overlay
              (Some (projectWith {["0" := savedUnnamed]})) [part0] 0 part0)
    as (_ & p' & Hp' & _ & _ & Hm); [reflexivity|].
  exists p'. split; [exact Hp'|].
  vm_compute in Hm. destruct Hm as (Hn & _ & Hc & _). by split.
Defined.

(** ** Loads that overtake each other *)

(** What the success callback of a load leaves as model and parts does not
    depend on the state it finds. *)
Lemma onLoad_installs (l : Load) (result : Object3D) (v : State) :
  let indexed := updatePartsFromRoot (rootFor (loader l) result) in
  modelRef (onLoad l result v) = Some indexed.1
  ∧ parts (onLoad l result v) = applyProjectPartsMeta (onLoaded l) indexed.2.
Proof.
  unfold onLoad, addRootToScene.
  destruct (updatePartsFromRoot (rootFor (loader l) result)) as [root' ps].
  by destruct (onLoaded l).
Qed.

(** An event adds at most one load, at the end of those in flight. *)
Lemma step_inflight (w w' : World) (e : Event) :
  step w e = Some w' →
  length (inflight w') ≤ length (inflight w)
  ∨ ∃ l, inflight w' = inflight w ++ [l].
Proof.
  destruct e as [f u|pid|i r|i]; cbn [step]; intros H.
  - injection H as <-. unfold started. cbn [inflight].
    destruct (handleFileChange f u (app w)).2 as [l|]; cbn [from_option].
    + right. by exists l.
    + left. by rewrite app_nil_r.
  - injection H as <-. unfold started. cbn [inflight].
    destruct (handleLoadProject pid (app w)).2 as [l|]; cbn [from_option].
    + right. by exists l.
    + left. by rewrite app_nil_r.
  - destruct (inflight w !! i) eqn:E; [|done]. injection H as <-. left.
    cbn [inflight]. rewrite length_delete by eauto. lia.
  - destruct (inflight w !! i) eqn:E; [|done]. injection H as <-. left.
    cbn [inflight]. rewrite length_delete by eauto. lia.
Qed.

(** The scenario of a superseded load: from [w], event [a] starts load A
    and event [b] starts load B while A is in flight; B's callback runs
    first, with result [rB], and gives [w3]; then A's runs, with result
    [rA], and gives [w4]. *)
Definition superseded (w : World) (a b : Event) (rA rB : Object3D)
    (w3 w4 : World) : Prop :=
  let n := length (inflight w) in
  ∃ w2, run w [a; b] = Some w2
      ∧ length (inflight w2) = n + 2
      ∧ step w2 (Loaded (n + 1) rB) = Some w3
      ∧ step w3 (Loaded n rA) = Some w4.

Lemma superseded_loads w a b rA rB w3 w4 :
  superseded w a b rA rB w3 w4 →
  ∃ w1 w2 lA lB,
    step w a = Some w1 ∧ inflight w1 = inflight w ++ [lA]
    ∧ step w1 b = Some w2 ∧ inflight w2 = inflight w ++ [lA; lB]
    ∧ app w3 = onLoad lB rB (app w2)
    ∧ app w4 = onLoad lA rA (app w3).
Proof.
  intros (w2 & Hrun & Hlen & H3 & H4). cbn [run] in Hrun.
  destruct (step w a) as [w1|] eqn:Ha; [|done]. cbn [mbind option_bind] in Hrun.
  destruct (step w1 b) as [w2'|] eqn:Hb; [|done].
  cbn [mbind option_bind] in Hrun. injection Hrun as ->.
  destruct (step_inflight _ _ _ Ha) as [Hle1|[lA HA]];
    destruct (step_inflight _ _ _ Hb) as [Hle2|[lB HB]];
    try (rewrite ?HA, ?HB, ?length_app in *; simpl in *; lia).
  exists w1, w2, lA, lB.
  assert (H2 : inflight w2 = inflight w ++ [lA; lB]).
  { rewrite HB, HA. by rewrite <- app_assoc. }
  assert (Hdel : delete (length (inflight w) + 1) (inflight w ++ [lA; lB])
                 = inflight w ++ [lA]).
  { replace (inflight w ++ [lA; lB]) with ((inflight w ++ [lA]) ++ [lB])
      by (by rewrite <- app_assoc).
    replace (length (inflight w) + 1) with (length (inflight w ++ [lA]))
      by (rewrite length_app; simpl; lia).
    by rewrite delete_middle, app_nil_r. }
  assert (HlB : (inflight w ++ [lA; lB]) !! (length (inflight w) + 1)
                = Some lB).
  { rewrite lookup_app_r by lia.
    by replace (length (inflight w) + 1 - length (inflight w)) with 1
      by lia. }
  assert (HlA : (inflight w ++ [lA]) !! length (inflight w) = Some lA).
  { rewrite lookup_app_r by lia. by rewrite Nat.sub_diag. }
  cbn [step] in H3. rewrite H2, HlB in H3.
  cbn [mbind option_bind] in H3. injection H3 as <-.
  cbn [step inflight] in H4. rewrite Hdel, HlA in H4.
  cbn [mbind option_bind] in H4. injection H4 as <-.
  by split_and!.
Qed.

(** The component as mounted, with no model and two projects listed:
    a bracket saved as OBJ and a cover saved as STL. *)
Definition savedAs (pid : Z) (file : string) : ProjectView :=
  {| pv_id := pid; pv_name := JStr "pieza"; pv_author := ""; pv_date := "";
     pv_position := Some origin; pv_rotation := Some origin;
     pv_modelFile := file;
     pv_modelUrl := Some ("/public/" +:+ pretty pid +:+ "-pieza/" +:+ file);
     pv_partsMeta := Some ∅; pv_pendingNotes := JStr "" |}.

Definition mounted : World :=
  {| app := {| modelRef := None; objectUrlRef := None;
               modelTypeRef := "generic"; hasModel := false;
               modelName := ""; modelVisible := true;
               position := origin; rotation := origin; parts := [];
               editingPartId := None;
               projects := [savedAs 1 "modelo.obj"; savedAs 2 "modelo.stl"];
               currentProjectId := None; pendingNotes := JStr "" |};
     inflight := [] |}.

(** The STL parser hands over a geometry, which the tree of the model
    does not hold; any value stands for it. *)
Definition geometry : Object3D := mesh "".

Definition afterB : World :=
  default mounted
    (run mounted [ProjectChosen 1; ProjectChosen 2; Loaded 1 geometry]).

Definition afterA : World :=
  default mounted
    (run mounted [ProjectChosen 1; ProjectChosen 2; Loaded 1 geometry;
                  Loaded 0 bracket]).

Lemma overtaken :
  superseded mounted (ProjectChosen 1) (ProjectChosen 2) bracket geometry
    afterB afterA.
Proof.
  exists (default mounted (run mounted [ProjectChosen 1; ProjectChosen 2])).
  split_and!; by vm_compute.
Defined.

(** C1, as stated, fails: the user loads project 1 (load A, an OBJ with
    three meshes) and then project 2 (load B, an STL); B is parsed first
    and its one mesh becomes the model; when A is parsed later, its
    callback replaces that model and the part list by the three parts of
    A. *)
Lemma stale_load_replaces_model :
  ¬ (∀ w a b rA rB w3 w4,
       superseded w a b rA rB w3 w4 →
       modelRef (app w4) = modelRef (app w3)
       ∧ parts (app w4) = parts (app w3)).
Proof.
  intros H. destruct (H _ _ _ _ _ _ _ overtaken) as [_ Hparts].
  vm_compute in Hparts. discriminate Hparts.
Qed.

(** C1, amended. In the scenario of a superseded load, the late callback
    of A is applied like any other: the model becomes the tree of A's
    result as [updatePartsFromRoot] stamps it, and the part list becomes
    the parts of that tree (with the saved metadata of A's project laid
    over them when A is a project load), whatever B's callback had
    established. Nothing marks A's result as stale. *)
Theorem stale_load_is_applied (w : World) (a b : Event)
    (rA rB : Object3D) (w3 w4 : World) :
  superseded w a b rA rB w3 w4 →
  ∃ w1 lA,
    step w a = Some w1
    ∧ inflight w1 = inflight w ++ [lA]
    ∧ app w4 = onLoad lA rA (app w3)
    ∧ modelRef (app w4)
      = Some (updatePartsFromRoot (rootFor (loader lA) rA)).1
    ∧ parts (app w4)
      = applyProjectPartsMeta (onLoaded lA)
          (updatePartsFromRoot (rootFor (loader lA) rA)).2.
Proof.
  intros H.
  destruct (superseded_loads _ _ _ _ _ _ _ H)
    as (w1 & w2 & lA & lB & Ha & HA & _ & _ & _ & H4).
  exists w1, lA. split_and!; try done; rewrite H4; apply onLoad_installs.
Qed.

Lemma stale_load_is_applied_witness :
  ∃ w1 lA,
    step mounted (ProjectChosen 1) = Some w1
    ∧ inflight w1 = inflight mounted ++ [lA]
    ∧ app afterA = onLoad lA bracket (app afterB)
    ∧ modelRef (app afterA)
      = Some (updatePartsFromRoot (rootFor (loader lA) bracket)).1
    ∧ parts (app afterA)
      = applyProjectPartsMeta (onLoaded lA)
          (updatePartsFromRoot (rootFor (loader lA) bracket)).2.
Proof.
  apply (stale_load_is_applied mounted (ProjectChosen 1) (ProjectChosen 2)
           bracket geometry).
  exists (default mounted (run mounted [ProjectChosen 1; ProjectChosen 2])).
  split_and!; vm_compute; reflexivity.
Defined.

End ViewerFacts.

(** * Properties of the project server *)

Module ServerFacts.
Import Server.

(** ** Keys that are numbers *)

(** The string starts with a decimal digit. *)
Definition numeral (s : string) : bool :=
  match s with
  | String c _ =>
      (48 <=? Ascii.nat_of_ascii c)%nat && (Ascii.nat_of_ascii c <=? 57)%nat
  | EmptyString => false
  end.

Lemma pretty_N_go_numeral (x : N) : ∀ s,
  (s = "" → (0 < x)%N) → (s ≠ "" → numeral s = true) →
  numeral (pretty_N_go x s) = true.
Proof.
  induction (N.lt_wf_0 x) as [x _ IH]. intros s H1 H2.
  destruct (decide (x = 0%N)) as [->|Hx].
  - rewrite pretty_N_go_0. apply H2. intros ->. specialize (H1 eq_refl). lia.
  - rewrite pretty_N_go_step by lia. apply IH.
    + apply N.div_lt; lia.
    + done.
    + intros _. unfold pretty_N_char. by repeat case_match.
Qed.

Lemma pretty_nat_numeral (n : nat) : numeral (pretty n) = true.
Proof.
  unfold pretty, pretty_nat, pretty, pretty_N. case_decide; [done|].
  apply pretty_N_go_numeral; [lia|done].
Qed.

(** No member that objects inherit has a name that starts with a digit:
    the string form of a part index is always a key of its own. *)
Lemma inherited_numeral (s : string) : numeral s = true → inherited s = None.
Proof.
  destruct s as [|c s]; [done|]. intros Hc.
  unfold inherited, Object_prototype. cbn.
  repeat (destruct (decide _) as [Heq|_];
            [injection Heq as <- _; by vm_compute in Hc|]; cbn).
  done.
Qed.

Section Facts.

Variable hashPassword : string → string.
Variable slugify : string → string.
Variable extname : string → string.
Variable parseVec3 : string → option (option Vec3).
Variable parsePartsMeta : string → option (option (gmap string PartMeta)).

(** ** The shared checks *)

Lemma findProject_lookup (projects : Db) reqId i project :
  findProject projects reqId = Some (i, project) →
  projects !! i = Some project ∧ pretty (id project) = reqId.
Proof.
  unfold findProject. intros H.
  by apply list_find_Some in H as (? & ? & _).
Qed.

Lemma authorized_no_password projects reqId password :
  truthy password = false →
  authorized hashPassword projects reqId password = inl (fail 400).
Proof. intros H. unfold authorized. by rewrite H. Qed.

Lemma authorized_ok projects reqId pw i project :
  pw ≠ "" →
  findProject projects reqId = Some (i, project) →
  hashPassword pw = passwordHash project →
  authorized hashPassword projects reqId (JStr pw) = inr (i, project).
Proof.
  intros Hpw Hfind Hhash. unfold authorized. cbn [truthy hashOf].
  destruct (String.eqb_spec pw "") as [|_]; [done|]. cbn [negb].
  rewrite Hfind, Hhash. by rewrite String.eqb_refl.
Qed.

(** Every route that checks a password answers 400 and leaves the store
    as it is when the request carries none. *)
Lemma password_required_elsewhere (projects : Db) (reqId : string)
    (disk : Disk) :
  (∀ b, truthy (t_password b) = false →
        putTransform hashPassword reqId b disk projects
        = (fail 400, projects))
  ∧ (∀ b, truthy (r_password b) = false →
          putRename hashPassword slugify reqId b disk projects
          = (fail 400, projects))
  ∧ (∀ b, truthy (n_password b) = false →
          putNotes hashPassword reqId b disk projects = (fail 400, projects))
  ∧ (∀ b, truthy (pm_password b) = false →
          putPartsMeta hashPassword reqId b disk projects
          = (fail 400, projects))
  ∧ (∀ b, truthy (d_password b) = false →
          deleteProject hashPassword reqId b disk projects
          = (fail 400, projects))
  ∧ (∀ file b, nonEmpty (c_password b) = None →
          postProject hashPassword slugify extname parseVec3 parsePartsMeta
            file b disk projects
          = (fail 400, projects)).
Proof.
  split_and!; [intros b H..|intros file b H].
  - unfold putTransform. by rewrite authorized_no_password.
  - unfold putRename. rewrite authorized_no_password by done.
    by destruct (negb _).
  - unfold putNotes. by rewrite authorized_no_password.
  - unfold putPartsMeta. rewrite authorized_no_password by done.
    by destruct (negb _).
  - unfold deleteProject. by rewrite authorized_no_password.
  - unfold postProject. rewrite H.
    by destruct file, (nonEmpty (c_projectName b)).
Qed.

(** ** Replacing the model *)

Lemma insert_changes (projects : Db) i (old new : Project) :
  projects !! i = Some old → new ≠ old →
  <[i := new]> projects ≠ projects.
Proof.
  intros Hi Hne Heq. apply Hne.
  assert (H : (<[i := new]> projects) !! i = Some new).
  { apply list_lookup_insert_eq. by apply lookup_lt_Some in Hi. }
  rewrite Heq, Hi in H. by injection H.
Qed.

(** C2 fails on [PUT /api/projects/:id/model]: the route reads no
    password. A request that names an existing project and carries a file
    is answered with success, and the record of the project gets the new
    model file. *)
Theorem putModel_asks_no_password (reqId : string) (file : Upload)
    (projects : Db) (i : nat) (project : Project) :
  findProject projects reqId = Some (i, project) →
  modelFile project ≠ modelFileName extname file →
  let r := putModel extname reqId (Some file) DiskOk projects in
  r.1 = success
  ∧ r.2 !! i = Some (withModelFile (modelFileName extname file) project)
  ∧ r.2 ≠ projects.
Proof.
  intros Hfind Hne. unfold putModel. rewrite Hfind. cbn [savedInTry fst snd].
  apply findProject_lookup in Hfind as [Hi _].
  split_and!; [done| |].
  - apply list_lookup_insert_eq. by apply lookup_lt_Some in Hi.
  - apply (insert_changes _ _ project); [done|].
    intros Heq. apply Hne. by rewrite <- Heq.
Qed.

(** ** Updating the transform *)

(** C6. [PUT /api/projects/:id/transform] answers 400 when the password
    is missing; with a password, 404 when no project has the id; with a
    password and a project, 403 when the hash of the password is not the
    stored one. In each case the store, and so the position and rotation
    of every project, is left as it was. *)
Theorem putTransform_errors (reqId : string) (body : TransformBody)
    (disk : Disk) (projects : Db) :
  let r := putTransform hashPassword reqId body disk projects in
  (truthy (t_password body) = false → r = (fail 400, projects))
  ∧ (truthy (t_password body) = true →
     findProject projects reqId = None → r = (fail 404, projects))
  ∧ (∀ pw i project,
       t_password body = JStr pw → pw ≠ "" →
       findProject projects reqId = Some (i, project) →
       hashPassword pw ≠ passwordHash project →
       r = (fail 403, projects)).
Proof.
  cbn zeta. unfold putTransform, authorized. split_and!.
  - by intros ->.
  - by intros -> ->.
  - intros pw i project -> Hpw -> Hhash. cbn [truthy hashOf].
    destruct (String.eqb_spec pw "") as [|_]; [done|]. cbn [negb].
    by destruct (String.eqb_spec (hashPassword pw) (passwordHash project)).
Qed.

(** ** Project ids *)

Lemma Math_max_spec (xs : list Z) : ∀ x,
  Math_max x xs ∈ x :: xs
  ∧ ∀ y, y ∈ x :: xs → (y ≤ Math_max x xs)%Z.
Proof.
  unfold Math_max. induction xs as [|z xs IH]; intros x.
  - cbn [foldl]. split; [by apply list_elem_of_singleton|]. intros y Hy.
    apply list_elem_of_singleton in Hy as ->. lia.
  - cbn [foldl]. destruct (IH (x `max` z)%Z) as [Hin Hge]. split.
    + apply elem_of_cons in Hin as [Hin|Hin].
      * rewrite Hin. rewrite !elem_of_cons.
        destruct (Z.max_spec x z) as [[_ ->]|[_ ->]]; auto.
      * rewrite !elem_of_cons. auto.
    + intros y Hy.
      assert (Hm : (x `max` z ≤ foldl Z.max (x `max` z) xs)%Z)
        by (apply Hge; apply elem_of_cons; auto).
      apply elem_of_cons in Hy as [->|Hy]; [lia|].
      apply elem_of_cons in Hy as [->|Hy]; [lia|].
      apply Hge. apply elem_of_cons. auto.
Qed.

Lemma newId_spec (projects : Db) :
  (projects = [] → newId projects = 1%Z)
  ∧ (projects ≠ [] →
     ∃ m, m ∈ id <$> projects
        ∧ (∀ p, p ∈ projects → (id p ≤ m)%Z)
        ∧ newId projects = (m + 1)%Z).
Proof.
  unfold newId. split; [by intros ->|]. intros Hne.
  destruct projects as [|p0 ps]; [done|]. cbn [fmap list_fmap].
  destruct (Math_max_spec (id <$> ps) (id p0)) as [Hin Hge].
  exists (Math_max (id p0) (id <$> ps)). split_and!; [done| |done].
  intros p Hp. apply Hge. change (id p ∈ id <$> p0 :: ps).
  by apply list_elem_of_fmap_2.
Qed.

Lemma newId_above (projects : Db) p :
  p ∈ projects → (id p < newId projects)%Z.
Proof.
  intros Hp. destruct (newId_spec projects) as [_ H].
  destruct H as (m & _ & Hge & ->);
    [by intros ->; apply elem_of_nil in Hp|].
  specialize (Hge p Hp). lia.
Qed.

Lemma newId_fresh (projects : Db) (new : Project) :
  id new = newId projects →
  NoDup (id <$> projects) → NoDup (id <$> projects ++ [new]).
Proof.
  intros Hid Hnd. rewrite fmap_app. apply NoDup_app. split_and!; [done| |].
  - intros x Hx Hx'. cbn in Hx'. apply list_elem_of_singleton in Hx' as ->.
    apply list_elem_of_fmap in Hx as (p & Hp & Hin).
    apply newId_above in Hin. lia.
  - cbn. apply NoDup_singleton.
Qed.

(** The ids of the store are safe integers: the sum of [newId] is then
    the one of the code. *)
Definition safeIds (projects : Db) : Prop :=
  Forall (λ p, isSafeInteger (id p) = true) projects.

(** C9. In a store whose ids are pairwise distinct (and safe integers, so
    that 1 plus the greatest of them is exact), a successful
    [POST /api/projects] gives the new project the id 1 when the store is
    empty and otherwise 1 plus the greatest id in the store, which is
    above every id in the store; and the ids are still pairwise distinct
    after any create and any delete request, successful or not. *)
Theorem project_ids_stay_distinct (projects : Db) :
  NoDup (id <$> projects) →
  safeIds projects →
  (∀ file body disk,
     let r := postProject hashPassword slugify extname parseVec3
                parsePartsMeta file body disk projects in
     NoDup (id <$> r.2)
     ∧ ∀ pid, r.1 = Json 200 true (Some pid) →
         (projects = [] → pid = 1%Z)
         ∧ (projects ≠ [] →
            ∃ m, m ∈ id <$> projects
               ∧ (∀ p, p ∈ projects → (id p ≤ m)%Z)
               ∧ pid = (m + 1)%Z)
         ∧ (∀ p, p ∈ projects → (id p < pid)%Z)
         ∧ ∃ new, r.2 = projects ++ [new] ∧ id new = pid)
  ∧ (∀ reqId body disk,
       NoDup (id <$> (deleteProject hashPassword reqId body disk
                        projects).2)).
Proof.
  intros Hnd _. split.
  - intros file body disk. cbn zeta. unfold postProject.
    destruct file as [file|]; [|by split].
    destruct (nonEmpty (c_projectName body)) as [projectName|]; [|by split].
    destruct (nonEmpty (c_password body)) as [password|]; [|by split].
    destruct disk; cbn [fst snd]; (split; [by try apply newId_fresh|]);
      intros pid [= <-].
    destruct (newId_spec projects) as [H1 H2]. split_and!; try done.
    + intros p Hp. by apply newId_above.
    + by eexists.
  - intros reqId body disk. unfold deleteProject.
    destruct (authorized hashPassword projects reqId (d_password body))
      as [r|[i project]]; [done|].
    destruct disk; cbn [snd]; try done;
      rewrite list_fmap_delete;
      exact (sublist_NoDup _ _ Hnd (sublist_delete _ _)).
Qed.

(** ** Saving the metadata of one part *)

Lemma merged_spec (field prev : jsval) (dflt : string) :
  merged field prev dflt
  = if defined field then field
    else if truthy prev then prev else JStr dflt.
Proof. reflexivity. Qed.

Lemma entryAt_own (meta : gmap string PartMeta) key :
  is_Some (meta !! key) ∨ inherited key = None →
  entryAt meta key = meta !! key.
Proof.
  unfold entryAt. intros [[e ->]| ->]; [done|]. by destruct (meta !! key).
Qed.

Lemma withEntry_own (meta : gmap string PartMeta) key entry :
  is_Some (meta !! key) ∨ inherited key = None →
  withEntry key entry meta = <[key := entry]> meta.
Proof.
  unfold withEntry. intros H. case_decide as Hk; [|done].
  destruct Hk as [-> Hnone]. destruct H as [[e He]|H]; [|done].
  by rewrite Hnone in He.
Qed.

(** C10, amended. [PUT /api/projects/:id/parts-meta] answers 400 when
    [partId] is undefined. With any other [partId], 0 included, and the
    password of the project, it succeeds and stores an entry under
    [String(partId)] ("0" for 0). Each of name, notes, colour and material
    preset of the entry is the value supplied when one is defined,
    otherwise the value stored before under that key when that is truthy,
    otherwise "", "", "#22c55e" and "plastic". The entries under other
    keys are the ones stored before, and so is the rest of the project
    and of the store. This is for a key that the project has an entry for
    or that is not the name of a member that objects inherit, and for a
    [partId] whose string form is the one written out here. *)
Theorem putPartsMeta_merge (reqId : string) (body : PartsMetaBody)
    (projects : Db) (i : nat) (project : Project) (pw : string) :
  pm_password body = JStr pw → pw ≠ "" →
  findProject projects reqId = Some (i, project) →
  hashPassword pw = passwordHash project →
  defined (pm_partId body) = true →
  exactString (pm_partId body) = true →
  (is_Some (default ∅ (partsMeta project) !! js_String (pm_partId body))
   ∨ inherited (js_String (pm_partId body)) = None) →
  let r := putPartsMeta hashPassword reqId body DiskOk projects in
  let key := js_String (pm_partId body) in
  let old := default ∅ (partsMeta project) in
  let prev := default emptyMeta (old !! key) in
  (∀ body' disk, pm_partId body' = JUndefined →
     putPartsMeta hashPassword reqId body' disk projects
     = (fail 400, projects))
  ∧ r.1 = success
  ∧ (pm_partId body = JNum 0 → key = "0")
  ∧ ∃ meta',
      r.2 = <[i := {| id := id project; name := name project;
                      author := author project; date := date project;
                      slug := slug project;
                      passwordHash := passwordHash project;
                      modelFile := modelFile project;
                      position := position project;
                      rotation := rotation project;
                      partsMeta := Some meta';
                      pendingNotes := pendingNotes project |}]> projects
      ∧ meta' !! key
        = Some
            {| m_name :=
                 if defined (pm_name body) then pm_name body
                 else if truthy (m_name prev) then m_name prev else JStr "";
               m_notes :=
                 if defined (pm_notes body) then pm_notes body
                 else if truthy (m_notes prev) then m_notes prev
                      else JStr "";
               m_color :=
                 if defined (pm_color body) then pm_color body
                 else if truthy (m_color prev) then m_color prev
                      else JStr "#22c55e";
               m_materialPreset :=
                 if defined (pm_materialPreset body)
                 then pm_materialPreset body
                 else if truthy (m_materialPreset prev)
                      then m_materialPreset prev
                      else JStr "plastic" |}
      ∧ ∀ k, k ≠ key → meta' !! k = old !! k.
Proof.
  intros Hbody Hpw Hfind Hhash Hdef _ Hkey. cbn zeta. split_and!.
  - intros body' disk H. unfold putPartsMeta. by rewrite H.
  - unfold putPartsMeta. rewrite Hdef, Hbody.
    by rewrite (authorized_ok _ _ _ _ _ Hpw Hfind Hhash).
  - by intros ->.
  - unfold putPartsMeta. rewrite Hdef, Hbody.
    rewrite (authorized_ok _ _ _ _ _ Hpw Hfind Hhash).
    cbn [negb savedBare snd]. rewrite entryAt_own, withEntry_own by done.
    eexists. split; [reflexivity|].
    split; [by rewrite lookup_insert_eq|].
    intros k Hk. by apply lookup_insert_ne.
Qed.

End Facts.

(** ** Instances *)

(** A stand-in for SHA-256 and for [path.extname], and a store with the
    project "Bracket v1" whose password is "abc123". *)
Definition toyHash (s : string) : string := "sha:" +:+ s.
Definition toyExtname (s : string) : string := "." +:+ split_pop "" s.
Definition toySlug (s : string) : string := toLowerCase s.

Definition bracketV1 : Project :=
  {| id := 1; name := JStr "Bracket v1"; author := "ana";
     date := "2024-05-01"; slug := "1-bracket-v1";
     passwordHash := toyHash "abc123"; modelFile := "modelo.stl";
     position := Some origin; rotation := Some origin;
     partsMeta := Some ∅; pendingNotes := JStr "" |}.

Lemma bracketV1_found : findProject [bracketV1] "1" = Some (0, bracketV1).
Proof. by vm_compute. Defined.

Lemma putModel_asks_no_password_witness :
  let r := putModel toyExtname "1"
             (Some {| originalname := "pieza.OBJ"; path := "uploads/f3a9" |})
             DiskOk [bracketV1] in
  r.1 = success
  ∧ r.2 !! 0 = Some (withModelFile "modelo.obj" bracketV1)
  ∧ r.2 ≠ [bracketV1].
Proof.
  apply (putModel_asks_no_password toyExtname "1"
           {| originalname := "pieza.OBJ"; path := "uploads/f3a9" |}
           [bracketV1] 0 bracketV1).
  - by vm_compute.
  - by vm_compute.
Defined.

Definition moveIt (password : jsval) : TransformBody :=
  {| t_position := Some {| vx := 10; vy := 0; vz := 5 |};
     t_rotation := Some {| vx := 0; vy := 90; vz := 0 |};
     t_password := password |}.

Lemma putTransform_errors_witness :
  putTransform toyHash "1" (moveIt JUndefined) DiskOk [bracketV1]
  = (fail 400, [bracketV1])
  ∧ putTransform toyHash "7" (moveIt (JStr "abc123")) DiskOk [bracketV1]
    = (fail 404, [bracketV1])
  ∧ putTransform toyHash "1" (moveIt (JStr "nope")) DiskOk [bracketV1]
    = (fail 403, [bracketV1]).
Proof.
  split_and!.
  - apply (putTransform_errors toyHash "1" (moveIt JUndefined) DiskOk
             [bracketV1]). reflexivity.
  - apply (putTransform_errors toyHash "7" (moveIt (JStr "abc123")) DiskOk
             [bracketV1]); by vm_compute.
  - apply (putTransform_errors toyHash "1" (moveIt (JStr "nope")) DiskOk
             [bracketV1]) with (pw := "nope") (i := 0) (project := bracketV1);
      by vm_compute.
Defined.

Definition noParse {A : Type} (s : string) : option A := None.

Definition newCover : CreateBody :=
  {| c_projectName := Some "Tapa"; c_author := Some "ana";
     c_password := Some "s3cret"; c_date := None; c_position := None;
     c_rotation := None; c_partsMeta := None |}.

Definition coverFile : Upload :=
  {| originalname := "tapa.STL"; path := "uploads/9c1e" |}.

Lemma project_ids_stay_distinct_witness :
  let r := postProject toyHash toySlug toyExtname noParse noParse
             (Some coverFile) newCover DiskOk [bracketV1] in
  r.1 = Json 200 true (Some 2%Z)
  ∧ NoDup (id <$> r.2)
  ∧ (∀ p, p ∈ [bracketV1] → (id p < 2)%Z)
  ∧ ∃ new, r.2 = [bracketV1] ++ [new] ∧ id new = 2%Z.
Proof.
  assert (Hnd : NoDup (id <$> [bracketV1])).
  { cbn. apply NoDup_singleton. }
  assert (Hsafe : safeIds [bracketV1]).
  { apply Forall_singleton. reflexivity. }
  destruct (project_ids_stay_distinct toyHash toySlug toyExtname noParse
              noParse [bracketV1] Hnd Hsafe) as [Hpost _].
  destruct (Hpost (Some coverFile) newCover DiskOk) as [Hnd' Hpid].
  destruct (Hpid 2%Z eq_refl) as (_ & _ & Habove & Hnew).
  cbn zeta. split; [reflexivity|]. split; [exact Hnd'|].
  split; [exact Habove | exact Hnew].
Defined.

(** Project 1 with entries for two parts: the first has no notes and an
    empty colour. *)
Definition baseEntry : PartMeta :=
  {| m_name := JStr "Base"; m_notes := JStr ""; m_color := JStr "";
     m_materialPreset := JStr "metal" |}.

Definition lidEntry : PartMeta :=
  {| m_name := JStr "Tapa"; m_notes := JStr "lijar";
     m_color := JStr "#ff0000"; m_materialPreset := JStr "glass" |}.

Definition bracketPainted : Project :=
  withPartsMeta {["0" := baseEntry; "1" := lidEntry]} bracketV1.

(** A request that sends notes for part 0, and nothing else. *)
Definition noteIt : PartsMetaBody :=
  {| pm_partId := JNum 0; pm_name := JUndefined;
     pm_notes := JStr "revisar"; pm_color := JUndefined;
     pm_materialPreset := JUndefined; pm_password := JStr "abc123" |}.

Definition paintRed : PartsMetaBody :=
  {| pm_partId := JNum 0; pm_name := JUndefined; pm_notes := JUndefined;
     pm_color := JStr "#ff0000"; pm_materialPreset := JUndefined;
     pm_password := JStr "abc123" |}.

(** C10, as stated, fails: a field that is not supplied does not always
    get the value stored before under the key. The entry of part 0 holds
    the empty string as colour; a request that supplies no colour stores
    "#22c55e", not the stored value. *)
Lemma putPartsMeta_default_over_stored_empty :
  ¬ (∀ (reqId : string) (body : PartsMetaBody) (projects : Db) (i : nat)
       (project : Project) (pw : string) (prev : PartMeta),
       pm_password body = JStr pw → pw ≠ "" →
       findProject projects reqId = Some (i, project) →
       toyHash pw = passwordHash project →
       defined (pm_partId body) = true →
       default ∅ (partsMeta project) !! js_String (pm_partId body)
       = Some prev →
       ∃ project' meta' entry,
         (putPartsMeta toyHash reqId body DiskOk projects).2 !! i
         = Some project'
         ∧ partsMeta project' = Some meta'
         ∧ meta' !! js_String (pm_partId body) = Some entry
         ∧ m_name entry
           = (if defined (pm_name body) then pm_name body
              else if defined (m_name prev) then m_name prev else JStr "")
         ∧ m_notes entry
           = (if defined (pm_notes body) then pm_notes body
              else if defined (m_notes prev) then m_notes prev
                   else JStr "")
         ∧ m_color entry
           = (if defined (pm_color body) then pm_color body
              else if defined (m_color prev) then m_color prev
                   else JStr "#22c55e")
         ∧ m_materialPreset entry
           = (if defined (pm_materialPreset body)
              then pm_materialPreset body
              else if defined (m_materialPreset prev)
                   then m_materialPreset prev
                   else JStr "plastic")).
Proof.
  intros H.
  destruct (H "1" noteIt [bracketPainted] 0 bracketPainted "abc123"
              baseEntry)
    as (project' & meta' & entry & Hp & Hm & He & _ & _ & Hc & _);
    [done | done | by vm_compute | done | done | by vm_compute |].
  vm_compute in Hp. injection Hp as <-. cbn in Hm. injection Hm as <-.
  vm_compute in He. injection He as <-. discriminate Hc.
Qed.

Lemma putPartsMeta_merge_witness :
  let r := putPartsMeta toyHash "1" noteIt DiskOk [bracketPainted] in
  r.1 = success
  ∧ ∃ meta',
      partsMeta <$> r.2 = [Some meta']
      ∧ meta' !! "0"
        = Some {| m_name := JStr "Base"; m_notes := JStr "revisar";
                  m_color := JStr "#22c55e";
                  m_materialPreset := JStr "metal" |}
      ∧ meta' !! "1" = Some lidEntry.
Proof.
  destruct (putPartsMeta_merge toyHash "1" noteIt [bracketPainted] 0
              bracketPainted "abc123")
    as (_ & Hok & _ & meta' & Hr & Hentry & Hothers).
  - reflexivity.
  - discriminate.
  - by vm_compute.
  - reflexivity.
  - reflexivity.
  - reflexivity.
  - left. exists baseEntry. by vm_compute.
  - cbn zeta. split; [exact Hok|]. exists meta'. split_and!.
    + by rewrite Hr.
    + exact Hentry.
    + rewrite (Hothers "1") by done. by vm_compute.
Defined.

End ServerFacts.

(** * Properties of the routes *)

Module RoutesFacts.
Import Server Routes.

(** The id in the URL of a request, and the password in its body. *)
Definition target (req : Request) : option string :=
  match req with
  | PostProject _ _ => None
  | PutModel reqId _ | PutTransform reqId _ | PutRename reqId _
  | PutNotes reqId _ | PutPartsMeta reqId _ | DeleteProject reqId _ =>
      Some reqId
  end.

Definition passwordOf (req : Request) : jsval :=
  match req with
  | PostProject _ body => from_option JStr JUndefined (c_password body)
  | PutModel _ _ => JUndefined
  | PutTransform _ body => t_password body
  | PutRename _ body => r_password body
  | PutNotes _ body => n_password body
  | PutPartsMeta _ body => pm_password body
  | DeleteProject _ body => d_password body
  end.

Definition checksPassword (req : Request) : bool :=
  match req with
  | PostProject _ _ | PutModel _ _ => false
  | _ => true
  end.

Section Facts.

Variable hashPassword : string → string.
Variable slugify : string → string.
Variable extname : string → string.
Variable parseVec3 : string → option (option Vec3).
Variable parsePartsMeta : string → option (option (gmap string PartMeta)).

Abbreviation handle :=
  (Routes.handle hashPassword slugify extname parseVec3 parsePartsMeta).
Abbreviation serve :=
  (Routes.serve hashPassword slugify extname parseVec3 parsePartsMeta).

(** [pw] is the password of [project]. *)
Definition opens (password : jsval) (project : Project) : Prop :=
  ∃ pw, password = JStr pw ∧ pw ≠ "" ∧ hashPassword pw = passwordHash project.

Lemma authorized_inr projects reqId password i project :
  authorized hashPassword projects reqId password = inr (i, project) →
  findProject projects reqId = Some (i, project) ∧ opens password project.
Proof.
  unfold authorized, opens.
  destruct (truthy password) eqn:Ht; [|done]. cbn [negb].
  destruct (findProject projects reqId) as [[j p]|]; [|done].
  destruct password as [| |b|n|pw]; try done. cbn [hashOf].
  destruct (String.eqb_spec (hashPassword pw) (passwordHash p)) as [Hh|];
    [|done].
  intros [= -> ->]. split; [done|]. exists pw. split_and!; try done.
  intros ->. done.
Qed.

(** What a request can do to the store. *)
Inductive Change (projects : Db) (req : Request) : Db → Prop :=
| Unchanged : Change projects req projects
| Updated reqId i old new :
    target req = Some reqId →
    findProject projects reqId = Some (i, old) →
    id new = id old →
    passwordHash new = passwordHash old →
    (modelFile old ≠ "" → modelFile new ≠ "") →
    (checksPassword req = true → opens (passwordOf req) old) →
    Change projects req (<[i := new]> projects)
| Created new pw :
    target req = None →
    id new = newId projects →
    pw ≠ "" → passwordHash new = hashPassword pw →
    passwordOf req = JStr pw →
    modelFile new ≠ "" →
    Change projects req (projects ++ [new])
| Deleted reqId i old :
    req = DeleteProject reqId {| d_password := passwordOf req |} →
    findProject projects reqId = Some (i, old) →
    opens (passwordOf req) old →
    Change projects req (delete i projects).

Lemma findProject_lookup_aux' (projects : Db) reqId i project :
  findProject projects reqId = Some (i, project) →
  projects !! i = Some project ∧ pretty (id project) = reqId.
Proof.
  unfold findProject. intros H.
  by apply list_find_Some in H as (? & ? & _).
Qed.

Lemma findProject_lookup_aux (projects : Db) reqId i project :
  findProject projects reqId = Some (i, project) →
  projects !! i = Some project.
Proof. intros H. by apply findProject_lookup_aux' in H as [? _]. Qed.

Lemma nonEmpty_Some o s : nonEmpty o = Some s → o = Some s ∧ s ≠ "".
Proof.
  destruct o as [s'|]; [|done]. cbn.
  destruct (String.eqb_spec s' ""); [done|]. by intros [= ->].
Qed.

Lemma modelFileName_nonempty file : modelFileName extname file ≠ "".
Proof. done. Qed.

Lemma savedBare_change projects req disk reqId i old new :
  target req = Some reqId →
  findProject projects reqId = Some (i, old) →
  id new = id old → passwordHash new = passwordHash old →
  (modelFile old ≠ "" → modelFile new ≠ "") →
  (checksPassword req = true → opens (passwordOf req) old) →
  Change projects req (savedBare disk projects (<[i := new]> projects)).2
  ∧ Change projects req (savedInTry disk projects (<[i := new]> projects)).2.
Proof.
  intros. split; destruct disk; cbn; by econstructor.
Qed.

(** The effect of any request on the store is one of the four above. *)
Lemma handle_change (req : Request) (disk : Disk) (projects : Db) :
  Change projects req (handle req disk projects).2.
Proof.
  destruct req as [file body|reqId file|reqId body|reqId body|reqId body
                  |reqId body|reqId body]; cbn [Routes.handle].
  - unfold postProject. destruct file as [file|]; [|constructor].
    destruct (nonEmpty (c_projectName body)) as [n|]; [|constructor].
    destruct (nonEmpty (c_password body)) as [pw|] eqn:Hpw; [|constructor].
    apply nonEmpty_Some in Hpw as [Hpw Hne].
    destruct disk; cbn [snd]; try constructor;
      (eapply (Created _ _ _ pw); cbn; try done; by rewrite Hpw).
  - unfold putModel. destruct file as [file|]; [|constructor].
    destruct (findProject projects reqId) as [[i old]|] eqn:Hf.
    + by eapply savedBare_change.
    + destruct disk; constructor.
  - unfold putTransform.
    destruct (authorized _ _ _ _) as [r|[i old]] eqn:Ha; [constructor|].
    apply authorized_inr in Ha as [Hf Ho]. by eapply savedBare_change.
  - unfold putRename. destruct (negb _); [constructor|].
    destruct (authorized _ _ _ _) as [r|[i old]] eqn:Ha; [constructor|].
    apply authorized_inr in Ha as [Hf Ho]. by eapply savedBare_change.
  - unfold putNotes.
    destruct (authorized _ _ _ _) as [r|[i old]] eqn:Ha; [constructor|].
    apply authorized_inr in Ha as [Hf Ho]. by eapply savedBare_change.
  - unfold putPartsMeta. destruct (negb _); [constructor|].
    destruct (authorized _ _ _ _) as [r|[i old]] eqn:Ha; [constructor|].
    apply authorized_inr in Ha as [Hf Ho]. by eapply savedBare_change.
  - unfold deleteProject.
    destruct (authorized _ _ _ _) as [r|[i old]] eqn:Ha; [constructor|].
    apply authorized_inr in Ha as [Hf Ho].
    destruct disk; cbn [snd]; try constructor;
      (eapply Deleted; [by destruct body|done..]).
Qed.

(** ** Who can change what *)

(** X1. A route that checks the password changes the store only for a
    request whose URL names a stored project and whose password is a
    non-empty string with the hash stored for that project. *)
Theorem store_changes_need_the_password (req : Request) (disk : Disk)
    (projects : Db) :
  checksPassword req = true →
  (handle req disk projects).2 ≠ projects →
  ∃ reqId i project,
    target req = Some reqId
    ∧ findProject projects reqId = Some (i, project)
    ∧ opens (passwordOf req) project.
Proof.
  intros Hc Hne. destruct (handle_change req disk projects)
    as [|reqId i old new Ht Hf _ _ _ Ho|new pw Ht|reqId i old Hr Hf Ho].
  - done.
  - exists reqId, i, old. auto.
  - by destruct req.
  - exists reqId, i, old. split_and!; try done. by rewrite Hr.
Qed.

(** The id and the password hash of every project, in store order. *)
Definition credentials (projects : Db) : list (Z * string) :=
  (λ p, (id p, passwordHash p)) <$> projects.

(** X2. No request changes the id or the password hash of a stored
    project: the list of these pairs is left as it is, or gets the pair of
    a new project at its end (create), or loses the pair of the project
    that a delete request names. *)
Theorem credentials_are_kept (req : Request) (disk : Disk) (projects : Db) :
  let after := (handle req disk projects).2 in
  credentials after = credentials projects
  ∨ (∃ file body pw,
       req = PostProject file body ∧ c_password body = Some pw
       ∧ credentials after
         = credentials projects ++ [(newId projects, hashPassword pw)])
  ∨ (∃ reqId body i project,
       req = DeleteProject reqId body
       ∧ findProject projects reqId = Some (i, project)
       ∧ credentials after = delete i (credentials projects)).
Proof.
  cbn zeta. destruct (handle_change req disk projects)
    as [|reqId i old new Ht Hf Hid Hpw _ _|new pw Ht Hid Hne Hpw Hp _
       |reqId i old Hr Hf Ho].
  - by left.
  - left. unfold credentials. rewrite list_fmap_insert, Hid, Hpw.
    apply list_insert_id. rewrite list_lookup_fmap.
    apply findProject_lookup_aux in Hf. by rewrite Hf.
  - right. left. destruct req as [file body| | | | | |]; try done.
    cbn in Hp. destruct (c_password body) as [pw'|] eqn:Hb; [|done].
    injection Hp as ->. exists file, body, pw. split_and!; try done.
    unfold credentials. rewrite fmap_app. cbn. by rewrite Hid, Hpw.
  - right. right. exists reqId, {| d_password := passwordOf req |}, i, old.
    split_and!; try done. unfold credentials. apply list_fmap_delete.
Qed.

(** X3. A request leaves every project alone whose id is not the one in
    its URL: such a project is in the store afterwards, unchanged. *)
Theorem other_projects_are_untouched (req : Request) (disk : Disk)
    (projects : Db) (p : Project) :
  p ∈ projects →
  target req ≠ Some (pretty (id p)) →
  p ∈ (handle req disk projects).2.
Proof.
  intros Hp Ht. destruct (handle_change req disk projects)
    as [|reqId i old new Hr Hf _ _ _ _|new pw _|reqId i old Hr Hf _].
  - done.
  - apply findProject_lookup_aux' in Hf as [Hi Hid].
    apply list_elem_of_lookup in Hp as [j Hj].
    apply list_elem_of_lookup. exists j.
    rewrite list_lookup_insert_ne; [done|]. intros ->.
    rewrite Hi in Hj. injection Hj as ->. apply Ht. by rewrite Hr, Hid.
  - apply elem_of_app. by left.
  - apply findProject_lookup_aux' in Hf as [Hi Hid].
    apply list_elem_of_lookup in Hp as [j Hj].
    assert (j ≠ i).
    { intros ->. rewrite Hi in Hj. injection Hj as ->. apply Ht.
      rewrite Hr. cbn. by rewrite Hid. }
    apply list_elem_of_lookup.
    destruct (decide (j < i)).
    + exists j. by rewrite list_lookup_delete_lt.
    + exists (pred j). rewrite list_lookup_delete_ge by lia.
      by replace (S (pred j)) with j by lia.
Qed.

(** ** The stores that the server can reach *)

(** Ids are pairwise distinct and at least 1, and every project has a
    model file and the hash of a non-empty password. *)
Definition wellFormed (projects : Db) : Prop :=
  NoDup (id <$> projects)
  ∧ ∀ p, p ∈ projects →
      (1 ≤ id p)%Z ∧ modelFile p ≠ ""
      ∧ ∃ pw, pw ≠ "" ∧ passwordHash p = hashPassword pw.

Lemma newId_positive (projects : Db) :
  (∀ p, p ∈ projects → (1 ≤ id p)%Z) → (1 ≤ newId projects)%Z.
Proof.
  intros H. destruct (ServerFacts.newId_spec projects) as [H1 H2].
  destruct projects as [|p0 ps]; [by rewrite H1|].
  destruct H2 as (m & Hm & _ & ->); [done|].
  apply list_elem_of_fmap in Hm as (p & -> & Hp). specialize (H p Hp). lia.
Qed.

Lemma elem_of_insert_inv (projects : Db) i (new p : Project) :
  p ∈ <[i := new]> projects → p = new ∨ p ∈ projects.
Proof.
  intros [j Hj]%list_elem_of_lookup. destruct (decide (i = j)) as [->|Hne].
  - destruct (decide (j < length projects)).
    + rewrite list_lookup_insert_eq in Hj by done. left. by injection Hj.
    + rewrite list_insert_ge in Hj by lia. right.
      by eapply list_elem_of_lookup_2.
  - rewrite list_lookup_insert_ne in Hj by done. right.
    by eapply list_elem_of_lookup_2.
Qed.

Lemma handle_wellFormed (req : Request) (disk : Disk) (projects : Db) :
  wellFormed projects → wellFormed (handle req disk projects).2.
Proof.
  intros [Hnd Hall]. destruct (handle_change req disk projects)
    as [|reqId i old new Ht Hf Hid Hpw Hm _|new pw Ht Hid Hne Hpw Hp Hm
       |reqId i old Hr Hf Ho].
  - done.
  - apply findProject_lookup_aux in Hf.
    assert (Hold : old ∈ projects) by by eapply list_elem_of_lookup_2.
    split.
    + rewrite list_fmap_insert, Hid, list_insert_id; [done|].
      by rewrite list_lookup_fmap, Hf.
    + intros p [->|Hp]%elem_of_insert_inv; [|by apply Hall].
      destruct (Hall old Hold) as (H1 & H2 & pw & H3 & H4).
      rewrite Hid, Hpw. split_and!; [done|by apply Hm|by exists pw].
  - split.
    + by apply ServerFacts.newId_fresh.
    + intros p [Hp'|Hp']%elem_of_app; [by apply Hall|].
      apply list_elem_of_singleton in Hp' as ->. rewrite Hid.
      split_and!; [|done|by exists pw].
      apply newId_positive. intros p Hp'. by apply Hall.
  - split.
    + rewrite list_fmap_delete.
      exact (sublist_NoDup _ _ Hnd (sublist_delete _ _)).
    + intros p Hp'%list_elem_of_delete_inv. by apply Hall.
Qed.

(** X4. Starting from the empty store, whatever requests arrive and however
    their file operations end, the ids in the store are pairwise distinct
    and at least 1, every project has a model file and the hash of a
    non-empty password, and so [GET /api/projects] lists every project
    with a [modelUrl] that is not null. *)
Theorem served_store_is_well_formed (reqs : list (Request * Disk)) :
  wellFormed (serve [] reqs)
  ∧ Forall (λ pv, Viewer.pv_modelUrl pv ≠ None)
      (getProjects (serve [] reqs)).
Proof.
  assert (H : ∀ db, wellFormed db → wellFormed (serve db reqs)).
  { induction reqs as [|[req disk] reqs IH]; intros db Hdb; [done|].
    unfold Routes.serve. cbn [foldl]. apply IH. by apply handle_wellFormed. }
  assert (H0 : wellFormed (serve [] reqs)).
  { apply H. split; [constructor|]. by intros p Hp%elem_of_nil. }
  split; [done|]. unfold getProjects. apply Forall_fmap, Forall_forall.
  intros p Hp. cbn. destruct H0 as [_ H0].
  destruct (H0 p Hp) as (_ & Hm & _).
  by destruct (String.eqb_spec (modelFile p) "").
Qed.

(** ** Deleting and creating *)

Lemma id_only_at (projects : Db) i j (p q : Project) :
  NoDup (id <$> projects) →
  projects !! i = Some p → projects !! j = Some q →
  pretty (id q) = pretty (id p) → j = i.
Proof.
  intros Hnd Hi Hj Heq. apply (inj pretty) in Heq.
  eapply (NoDup_lookup (id <$> projects)); [done| |].
  - by rewrite list_lookup_fmap, Hj.
  - by rewrite list_lookup_fmap, Hi, Heq.
Qed.

Lemma authorized_inl_not_success projects reqId password r :
  authorized hashPassword projects reqId password = inl r → r ≠ success.
Proof.
  unfold authorized. destruct (negb _); [by intros [= <-]|].
  destruct (findProject _ _) as [[??]|]; [|by intros [= <-]].
  destruct (hashOf _); [|by intros [= <-]].
  destruct (String.eqb _ _); [done|by intros [= <-]].
Qed.

Lemma deleteProject_success reqId body disk (projects : Db) :
  (deleteProject hashPassword reqId body disk projects).1 = success →
  ∃ i old,
    findProject projects reqId = Some (i, old)
    ∧ (deleteProject hashPassword reqId body disk projects).2
      = delete i projects.
Proof.
  unfold deleteProject.
  destruct (authorized _ _ _ _) as [r|[i old]] eqn:Ha.
  - intros Hr. by apply authorized_inl_not_success in Ha.
  - apply authorized_inr in Ha as [Hf _]. destruct disk; [|done|]; eauto.
Qed.

Lemma findProject_delete (projects : Db) reqId i old :
  NoDup (id <$> projects) →
  findProject projects reqId = Some (i, old) →
  findProject (delete i projects) reqId = None.
Proof.
  intros Hnd [Hi Hid]%findProject_lookup_aux'.
  apply list_find_None, Forall_forall.
  intros q [j Hj]%list_elem_of_lookup Hq. rewrite <- Hid in Hq.
  destruct (decide (j < i)).
  - rewrite list_lookup_delete_lt in Hj by done.
    assert (j = i) by eauto using id_only_at. lia.
  - rewrite list_lookup_delete_ge in Hj by lia.
    assert (S j = i) by eauto using id_only_at. lia.
Qed.

(** A request that is not a create keeps an id that is not found
    unfound. *)
Lemma findProject_None_kept (projects after : Db) (req : Request) reqId :
  Change projects req after →
  target req ≠ None →
  findProject projects reqId = None →
  findProject after reqId = None.
Proof.
  intros Hc Ht Hnone. apply list_find_None in Hnone.
  destruct Hc as [|reqId' i old new _ Hf Hid _ _ _|new pw Ht'
                 |reqId' i old _ _ _].
  - by apply list_find_None.
  - apply list_find_None, Forall_insert; [done|]. rewrite Hid.
    apply findProject_lookup_aux in Hf.
    by eapply (proj1 (Forall_lookup _ _) Hnone).
  - done.
  - by apply list_find_None, Forall_delete.
Qed.

Lemma serve_None_kept (reqs : list (Request * Disk)) reqId : ∀ db,
  Forall (λ rd, target rd.1 ≠ None) reqs →
  findProject db reqId = None →
  findProject (serve db reqs) reqId = None.
Proof.
  induction reqs as [|[req disk] reqs IH]; intros db Hreqs Hnone; [done|].
  apply Forall_cons in Hreqs as [Hreq Hreqs].
  unfold Routes.serve. cbn [foldl]. apply IH; [done|].
  eapply findProject_None_kept; [apply handle_change|done..].
Qed.

(** X5. When the ids in the store are pairwise distinct, a delete request
    that is answered with success takes one project out of the store, and
    the id it named stays unfound as long as no project is created: after
    any later requests with no create among them, a request on that id,
    of any route, leaves the store as it is. (A create gives out 1 plus
    the greatest id left, which can be the id deleted.) *)
Theorem deleted_project_is_gone (reqId : string) (body : DeleteBody)
    (disk : Disk) (projects : Db) (later : list (Request * Disk)) :
  NoDup (id <$> projects) →
  (deleteProject hashPassword reqId body disk projects).1 = success →
  Forall (λ rd, target rd.1 ≠ None) later →
  let after := (deleteProject hashPassword reqId body disk projects).2 in
  let store := serve after later in
  length after + 1 = length projects
  ∧ findProject store reqId = None
  ∧ ∀ req disk', target req = Some reqId →
      (handle req disk' store).2 = store.
Proof.
  intros Hnd (i & old & Hf & ->)%deleteProject_success Hlater. cbn zeta.
  pose proof (findProject_delete _ _ _ _ Hnd Hf) as Hgone.
  apply (serve_None_kept later) in Hgone; [|done].
  apply findProject_lookup_aux in Hf. split_and!.
  - rewrite length_delete by eauto. apply lookup_lt_Some in Hf. lia.
  - done.
  - intros req disk' Ht.
    destruct (handle_change req disk' (serve (delete i projects) later))
      as [|reqId' i' old' new' Ht' Hf' _ _ _ _|new' pw' Ht'
         |reqId' i' old' Hr' Hf' _].
    + done.
    + rewrite Ht in Ht'. injection Ht' as <-. by rewrite Hgone in Hf'.
    + by rewrite Ht in Ht'.
    + rewrite Hr' in Ht. injection Ht as ->. by rewrite Hgone in Hf'.
Qed.

Lemma findProject_insert (projects : Db) reqId i old new :
  findProject projects reqId = Some (i, old) →
  id new = id old →
  findProject (<[i := new]> projects) reqId = Some (i, new).
Proof.
  unfold findProject. intros (Hi & Hid & Hfirst)%list_find_Some Heq.
  apply list_find_Some. split_and!.
  - apply list_lookup_insert_eq. by apply lookup_lt_Some in Hi.
  - by rewrite Heq.
  - intros j q Hj Hlt. rewrite list_lookup_insert_ne in Hj by lia. eauto.
Qed.

(** The request is a delete request on the id [k]. *)
Definition deletes (k : string) (req : Request) : bool :=
  match req with
  | DeleteProject reqId _ => bool_decide (reqId = k)
  | _ => false
  end.

(** A request that does not delete the project found under [k] leaves a
    project with its id and its password hash to be found there. *)
Lemma findProject_kept (projects after : Db) (req : Request) k i p :
  Change projects req after →
  deletes k req = false →
  findProject projects k = Some (i, p) →
  ∃ i' p',
    findProject after k = Some (i', p')
    ∧ id p' = id p ∧ passwordHash p' = passwordHash p.
Proof.
  intros Hc Hdel Hk.
  destruct Hc as [|reqId' i0 old new _ Hf Hid Hpw _ _|new pw _
                 |reqId' i0 old Hr Hf _].
  - by exists i, p.
  - destruct (decide (i0 = i)) as [->|Hne].
    + pose proof (findProject_lookup_aux' _ _ _ _ Hf) as [Hold Hreq].
      pose proof (findProject_lookup_aux' _ _ _ _ Hk) as [Hp Hkey].
      rewrite Hold in Hp. injection Hp as ->. rewrite Hkey in Hreq.
      subst reqId'. exists i, new. split_and!; [|done..].
      by apply (findProject_insert _ _ _ p).
    + exists i, p. split_and!; [|done..].
      apply list_find_Some in Hk as (Hp & Hkey & Hfirst).
      apply list_find_Some. split_and!; [|done|].
      * by rewrite list_lookup_insert_ne.
      * intros j q Hj Hlt. destruct (decide (j = i0)) as [->|Hj0].
        -- apply findProject_lookup_aux in Hf.
           rewrite list_lookup_insert_eq in Hj
             by by apply lookup_lt_Some in Hf.
           injection Hj as <-. rewrite Hid. by apply (Hfirst i0).
        -- rewrite list_lookup_insert_ne in Hj by done. by apply (Hfirst j).
  - exists i, p. split_and!; [|done..].
    apply list_find_Some in Hk as (Hp & Hkey & Hfirst).
    apply list_find_Some. split_and!; [|done|].
    + by apply lookup_app_l_Some.
    + intros j q Hj Hlt. apply (Hfirst j); [|done].
      rewrite lookup_app_l in Hj; [done|].
      apply lookup_lt_Some in Hp. lia.
  - assert (Hne : reqId' ≠ k).
    { intros ->. rewrite Hr in Hdel. cbn in Hdel.
      by rewrite bool_decide_eq_false in Hdel. }
    apply findProject_lookup_aux' in Hf as [Hold Hreq].
    apply list_find_Some in Hk as (Hp & Hkey & Hfirst).
    assert (Hi : i0 ≠ i).
    { intros ->. rewrite Hold in Hp. injection Hp as ->. congruence. }
    destruct (decide (i0 < i)) as [Hlt|Hge].
    + exists (pred i), p. split_and!; [|done..].
      apply list_find_Some. split_and!; [|done|].
      * rewrite list_lookup_delete_ge by lia.
        by replace (S (pred i)) with i by lia.
      * intros j q Hj Hj'. destruct (decide (j < i0)).
        -- rewrite list_lookup_delete_lt in Hj by done.
           apply (Hfirst j); [done|lia].
        -- rewrite list_lookup_delete_ge in Hj by lia.
           apply (Hfirst (S j)); [done|lia].
    + exists i, p. split_and!; [|done..].
      apply list_find_Some. split_and!; [|done|].
      * by rewrite list_lookup_delete_lt by lia.
      * intros j q Hj Hj'. rewrite list_lookup_delete_lt in Hj by lia.
        by apply (Hfirst j).
Qed.

Lemma serve_kept (reqs : list (Request * Disk)) k : ∀ db i p,
  Forall (λ rd, deletes k rd.1 = false) reqs →
  findProject db k = Some (i, p) →
  ∃ i' p',
    findProject (serve db reqs) k = Some (i', p')
    ∧ id p' = id p ∧ passwordHash p' = passwordHash p.
Proof.
  induction reqs as [|[req disk] reqs IH]; intros db i p Hreqs Hk.
  { by exists i, p. }
  apply Forall_cons in Hreqs as [Hreq Hreqs].
  destruct (findProject_kept db _ req k i p (handle_change req disk db)
              Hreq Hk) as (i1 & p1 & Hk1 & Hid1 & Hpw1).
  destruct (IH _ i1 p1 Hreqs Hk1) as (i' & p' & Hk' & Hid' & Hpw').
  exists i', p'. unfold Routes.serve. cbn [foldl].
  split_and!; [done|congruence..].
Qed.

(** X6. In a store whose ids are safe integers, a create request that is
    answered with the id [pid] appends one project, which [pid] finds
    and the password sent with the request opens. After any later
    requests, as long as none is a delete request on [pid], [pid] still
    finds a project with that id which the password opens, and a password
    with another hash is answered 403. *)
Theorem created_project_opens_with_its_password (file : option Upload)
    (body : CreateBody) (disk : Disk) (projects : Db) (pid : Z)
    (later : list (Request * Disk)) :
  ServerFacts.safeIds projects →
  (postProject hashPassword slugify extname parseVec3 parsePartsMeta
     file body disk projects).1 = Json 200 true (Some pid) →
  Forall (λ rd, deletes (pretty pid) rd.1 = false) later →
  let after := (postProject hashPassword slugify extname parseVec3
                  parsePartsMeta file body disk projects).2 in
  let store := serve after later in
  ∃ new pw,
    c_password body = Some pw
    ∧ after = projects ++ [new]
    ∧ id new = pid
    ∧ authorized hashPassword after (pretty pid) (JStr pw)
      = inr (length projects, new)
    ∧ (∃ i p,
         authorized hashPassword store (pretty pid) (JStr pw) = inr (i, p)
         ∧ id p = pid)
    ∧ ∀ other, other ≠ "" → hashPassword other ≠ hashPassword pw →
        authorized hashPassword store (pretty pid) (JStr other)
        = inl (fail 403).
Proof.
  intros _. unfold postProject. destruct file as [file|]; [|done].
  destruct (nonEmpty (c_projectName body)) as [n|]; [|done].
  destruct (nonEmpty (c_password body)) as [pw|] eqn:Hpw; [|done].
  apply nonEmpty_Some in Hpw as [Hpw Hne].
  destruct disk; cbn [fst snd]; try done. intros [= <-] Hlater.
  eexists _, pw. split; [done|]. split; [reflexivity|]. split; [done|].
  match goal with |- context [projects ++ [?x]] => set (new := x) end.
  assert (Hf : findProject (projects ++ [new]) (pretty (newId projects))
               = Some (length projects, new)).
  { apply list_find_Some. split_and!.
    - by rewrite lookup_app_r, Nat.sub_diag.
    - done.
    - intros j q Hj Hlt Hq. rewrite lookup_app_l in Hj by done.
      apply (inj pretty) in Hq.
      assert (Hin : q ∈ projects) by by eapply list_elem_of_lookup_2.
      apply ServerFacts.newId_above in Hin. lia. }
  destruct (serve_kept later _ _ _ _ Hlater Hf)
    as (i' & p' & Hf' & Hid' & Hpw').
  split_and!.
  - by apply ServerFacts.authorized_ok.
  - exists i', p'. split; [|done].
    apply ServerFacts.authorized_ok; [done..|by rewrite Hpw'].
  - intros other Ho Hh. unfold authorized. cbn [truthy hashOf].
    destruct (String.eqb_spec other ""); [done|]. cbn [negb]. rewrite Hf'.
    rewrite Hpw'. cbn [passwordHash new].
    by destruct (String.eqb_spec (hashPassword other) (hashPassword pw)).
Qed.

(** ** Saving and reading back *)

Lemma putTransform_success reqId body disk (projects : Db) :
  (putTransform hashPassword reqId body disk projects).1 = success →
  ∃ i old,
    findProject projects reqId = Some (i, old)
    ∧ (putTransform hashPassword reqId body disk projects).2
      = <[i := withTransform (Some (default origin (t_position body)))
                 (Some (default origin (t_rotation body))) old]> projects.
Proof.
  unfold putTransform.
  destruct (authorized _ _ _ _) as [r|[i old]] eqn:Ha.
  - intros Hr. by apply authorized_inl_not_success in Ha.
  - apply authorized_inr in Ha as [Hf _]. destruct disk; [|done..]; eauto.
Qed.

(** X7. After a transform request that is answered with success,
    [GET /api/projects] lists the project with the position and the
    rotation of the request (the origin for one that is missing) and with
    its other fields as before; the entries of the other projects are the
    ones listed before. *)
Theorem saved_transform_is_listed (reqId : string) (body : TransformBody)
    (disk : Disk) (projects : Db) :
  (putTransform hashPassword reqId body disk projects).1 = success →
  let after := (putTransform hashPassword reqId body disk projects).2 in
  ∃ i old before,
    findProject projects reqId = Some (i, old)
    ∧ getProjects projects !! i = Some before
    ∧ getProjects after
      = <[i := {| Viewer.pv_id := Viewer.pv_id before;
                  Viewer.pv_name := Viewer.pv_name before;
                  Viewer.pv_author := Viewer.pv_author before;
                  Viewer.pv_date := Viewer.pv_date before;
                  Viewer.pv_position :=
                    Some (default origin (t_position body));
                  Viewer.pv_rotation :=
                    Some (default origin (t_rotation body));
                  Viewer.pv_modelFile := Viewer.pv_modelFile before;
                  Viewer.pv_modelUrl := Viewer.pv_modelUrl before;
                  Viewer.pv_partsMeta := Viewer.pv_partsMeta before;
                  Viewer.pv_pendingNotes := Viewer.pv_pendingNotes before |}]>
          (getProjects projects).
Proof.
  intros (i & old & Hf & ->)%putTransform_success. cbn zeta.
  pose proof (findProject_lookup_aux _ _ _ _ Hf) as Hi.
  eexists i, old, _. split; [done|]. unfold getProjects at 1 2.
  rewrite list_lookup_fmap, Hi. split; [reflexivity|].
  unfold getProjects. by rewrite list_fmap_insert.
Qed.

Lemma merged_again field prev dflt :
  merged field (merged field prev dflt) dflt = merged field prev dflt.
Proof.
  unfold merged, js_or. destruct (defined field); [done|].
  destruct (truthy prev) eqn:Hp; [by rewrite Hp|].
  by destruct (truthy (JStr dflt)).
Qed.

Lemma mergedMeta_again body prev :
  mergedMeta body (mergedMeta body prev) = mergedMeta body prev.
Proof. unfold mergedMeta. cbn. by rewrite !merged_again. Qed.

(** X19. A part id that is the name of a member that objects inherit,
    such as "constructor" or "toString", in a project that has no entry
    under it: the request is answered with success, and the inherited
    member is taken for the entry stored before. A name that is not
    supplied is stored as the name of the member ("Object" for
    "constructor"), not as ""; notes, colour and preset get their
    defaults. For "__proto__" the request stores no entry at all. *)
Theorem putPartsMeta_inherited_key (reqId : string) (body : PartsMetaBody)
    (projects : Db) (i : nat) (project : Project) (pw : string)
    (memberName : jsval) :
  pm_password body = JStr pw → pw ≠ "" →
  findProject projects reqId = Some (i, project) →
  hashPassword pw = passwordHash project →
  defined (pm_partId body) = true →
  default ∅ (partsMeta project) !! js_String (pm_partId body) = None →
  inherited (js_String (pm_partId body)) = Some memberName →
  let r := putPartsMeta hashPassword reqId body DiskOk projects in
  let key := js_String (pm_partId body) in
  let old := default ∅ (partsMeta project) in
  r.1 = success
  ∧ ∃ meta',
      r.2 = <[i := {| id := id project; name := name project;
                      author := author project; date := date project;
                      slug := slug project;
                      passwordHash := passwordHash project;
                      modelFile := modelFile project;
                      position := position project;
                      rotation := rotation project;
                      partsMeta := Some meta';
                      pendingNotes := pendingNotes project |}]> projects
      ∧ (key = "__proto__" → meta' = old)
      ∧ (key ≠ "__proto__" →
         meta'
         = <[key :=
               {| m_name :=
                    if defined (pm_name body) then pm_name body
                    else if truthy memberName then memberName else JStr "";
                  m_notes :=
                    if defined (pm_notes body) then pm_notes body
                    else JStr "";
                  m_color :=
                    if defined (pm_color body) then pm_color body
                    else JStr "#22c55e";
                  m_materialPreset :=
                    if defined (pm_materialPreset body)
                    then pm_materialPreset body
                    else JStr "plastic" |}]> old).
Proof.
  intros Hbody Hpw Hfind Hhash Hdef Hnone Hin. cbn zeta.
  unfold putPartsMeta. rewrite Hdef, Hbody.
  rewrite (ServerFacts.authorized_ok _ _ _ _ _ _ Hpw Hfind Hhash).
  cbn [negb savedBare fst snd]. split; [done|]. eexists.
  split; [reflexivity|]. unfold withEntry, entryAt. rewrite Hnone, Hin.
  split; intros Hk.
  - by rewrite decide_True.
  - rewrite decide_False by by intros [? _]. reflexivity.
Qed.

Lemma withEntry_again body key (meta : gmap string PartMeta) :
  let entry := mergedMeta body (default emptyMeta (entryAt meta key)) in
  let meta1 := withEntry key entry meta in
  withEntry key (mergedMeta body (default emptyMeta (entryAt meta1 key)))
    meta1
  = meta1.
Proof.
  cbn zeta. unfold withEntry at 2 3 4.
  destruct (decide (key = "__proto__" ∧ meta !! key = None)) as [Hk|Hk].
  - unfold withEntry. by rewrite decide_True.
  - unfold withEntry. rewrite decide_False.
    + unfold entryAt at 1. rewrite lookup_insert_eq.
      cbn [default from_option]. unfold Datatypes.id.
      by rewrite mergedMeta_again, insert_insert_eq.
    + intros [_ H]. by rewrite lookup_insert_eq in H.
Qed.

(** X8. Saving the metadata of a part is idempotent: when a parts-meta
    request has been answered with success, the same request sent again
    succeeds and leaves the store exactly as the first one left it. *)
Theorem putPartsMeta_twice (reqId : string) (body : PartsMetaBody)
    (disk : Disk) (projects : Db) :
  (putPartsMeta hashPassword reqId body disk projects).1 = success →
  let after := (putPartsMeta hashPassword reqId body disk projects).2 in
  putPartsMeta hashPassword reqId body DiskOk after = (success, after).
Proof.
  unfold putPartsMeta. destruct (defined (pm_partId body)); [|done].
  cbn [negb].
  destruct (authorized _ _ _ _) as [r|[i old]] eqn:Ha.
  { intros Hr. by apply authorized_inl_not_success in Ha. }
  apply authorized_inr in Ha as [Hf (pw & Hpw & Hne & Hh)].
  destruct disk; [|done..]. intros _. cbn [savedBare snd].
  set (key := js_String (pm_partId body)).
  set (meta := default ∅ (partsMeta old)).
  set (entry := mergedMeta body (default emptyMeta (entryAt meta key))).
  set (new := withPartsMeta (withEntry key entry meta) old).
  rewrite Hpw.
  rewrite (ServerFacts.authorized_ok hashPassword _ reqId pw i new);
    [|done|by apply (findProject_insert _ _ _ old)|done].
  cbn [savedBare]. rewrite list_insert_insert_eq. do 2 f_equal.
  unfold new at 1 2. cbn [partsMeta withPartsMeta default from_option].
  unfold Datatypes.id. unfold entry. rewrite withEntry_again.
  reflexivity.
Qed.

End Facts.

(** ** Instances *)

Import ServerFacts.

Abbreviation toyHandle :=
  (Routes.handle toyHash toySlug toyExtname noParse noParse).

Lemma store_changes_need_the_password_witness :
  ∃ reqId i project,
    target (PutTransform "1" (moveIt (JStr "abc123"))) = Some reqId
    ∧ findProject [bracketV1] reqId = Some (i, project)
    ∧ opens toyHash
        (passwordOf (PutTransform "1" (moveIt (JStr "abc123")))) project.
Proof.
  apply (store_changes_need_the_password toyHash toySlug toyExtname noParse
           noParse (PutTransform "1" (moveIt (JStr "abc123"))) DiskOk
           [bracketV1]).
  - reflexivity.
  - by vm_compute.
Defined.

Lemma other_projects_are_untouched_witness :
  bracketV1 ∈ (toyHandle (PostProject (Some coverFile) newCover) DiskOk
                 [bracketV1]).2
  ∧ bracketV1 ∈ (toyHandle (PutNotes "2" {| n_notes := JStr "lijar";
                                            n_password := JStr "s3cret" |})
                   DiskOk [bracketV1]).2.
Proof.
  split; apply other_projects_are_untouched;
    try apply list_elem_of_here; by vm_compute.
Defined.

(** A second project in the store, with the password "s3cret". *)
Definition coverV1 : Project :=
  {| id := 2; name := JStr "Tapa"; author := "ana"; date := "2024-06-11";
     slug := "2-tapa"; passwordHash := toyHash "s3cret";
     modelFile := "modelo.stl"; position := Some origin;
     rotation := Some origin; partsMeta := Some ∅;
     pendingNotes := JStr "" |}.

Definition afterwards : list (Request * Disk) :=
  [ (PutModel "2" (Some coverFile), DiskOk);
    (PutNotes "1" {| n_notes := JStr "lijar"; n_password := JStr "abc123" |},
     DiskOk) ].

Lemma deleted_project_is_gone_witness :
  let store :=
    Routes.serve toyHash toySlug toyExtname noParse noParse
      (deleteProject toyHash "2" {| d_password := JStr "s3cret" |} DiskOk
         [bracketV1; coverV1]).2 afterwards in
  findProject store "2" = None
  ∧ (toyHandle (PutModel "2" (Some coverFile)) DiskOk store).2 = store.
Proof.
  destruct (deleted_project_is_gone toyHash toySlug toyExtname noParse
              noParse "2" {| d_password := JStr "s3cret" |} DiskOk
              [bracketV1; coverV1] afterwards) as (_ & Hgone & Hsame).
  - apply (bool_decide_unpack _). by vm_compute.
  - by vm_compute.
  - by repeat constructor.
  - split; [exact Hgone|]. by apply Hsame.
Defined.

(** After the create: another create, the first project deleted, the new
    project renamed. *)
Definition thereafter : list (Request * Disk) :=
  [ (PostProject (Some coverFile) newCover, DiskOk);
    (DeleteProject "1" {| d_password := JStr "abc123" |}, DiskOk);
    (PutRename "2" {| r_name := JStr "Tapa v2";
                      r_password := JStr "s3cret" |}, DiskOk) ].

Lemma created_project_opens_with_its_password_witness :
  let after := (postProject toyHash toySlug toyExtname noParse noParse
                  (Some coverFile) newCover DiskOk [bracketV1]).2 in
  let store := Routes.serve toyHash toySlug toyExtname noParse noParse
                 after thereafter in
  (∃ i p, authorized toyHash store "2" (JStr "s3cret") = inr (i, p)
          ∧ id p = 2%Z)
  ∧ authorized toyHash store "2" (JStr "abc123") = inl (fail 403).
Proof.
  destruct (created_project_opens_with_its_password toyHash toySlug
              toyExtname noParse noParse (Some coverFile) newCover DiskOk
              [bracketV1] 2 thereafter)
    as (new & pw & Hpw & _ & _ & _ & Hopen & Hother).
  - apply Forall_singleton. reflexivity.
  - by vm_compute.
  - by repeat constructor.
  - injection Hpw as <-. split; [exact Hopen|].
    apply Hother; [done|]. by vm_compute.
Defined.

Lemma saved_transform_is_listed_witness :
  ∃ i old before,
    findProject [bracketV1] "1" = Some (i, old)
    ∧ getProjects [bracketV1] !! i = Some before
    ∧ Viewer.pv_position
        <$> getProjects
              (putTransform toyHash "1" (moveIt (JStr "abc123")) DiskOk
                 [bracketV1]).2
      = [Some {| vx := 10; vy := 0; vz := 5 |}].
Proof.
  assert (Hok : (putTransform toyHash "1" (moveIt (JStr "abc123")) DiskOk
                   [bracketV1]).1 = success) by by vm_compute.
  destruct (saved_transform_is_listed toyHash "1" (moveIt (JStr "abc123"))
              DiskOk [bracketV1] Hok) as (i & old & before & Hf & Hb & Hg).
  exists i, old, before. by split_and!.
Defined.

(** A request that names the part "constructor" and sends a colour
    only. *)
Definition paintConstructor : PartsMetaBody :=
  {| pm_partId := JStr "constructor"; pm_name := JUndefined;
     pm_notes := JUndefined; pm_color := JStr "#ff0000";
     pm_materialPreset := JUndefined; pm_password := JStr "abc123" |}.

Lemma putPartsMeta_inherited_key_witness :
  partsMeta
    <$> (putPartsMeta toyHash "1" paintConstructor DiskOk [bracketV1]).2
  = [Some {["constructor" :=
              {| m_name := JStr "Object"; m_notes := JStr "";
                 m_color := JStr "#ff0000";
                 m_materialPreset := JStr "plastic" |}]}].
Proof.
  destruct (putPartsMeta_inherited_key toyHash "1" paintConstructor
              [bracketV1] 0 bracketV1 "abc123" (JStr "Object"))
    as (_ & meta' & -> & _ & Hmeta).
  - reflexivity.
  - discriminate.
  - by vm_compute.
  - reflexivity.
  - reflexivity.
  - by vm_compute.
  - by vm_compute.
  - rewrite Hmeta by discriminate. reflexivity.
Defined.

Lemma putPartsMeta_twice_witness :
  putPartsMeta toyHash "1" paintRed DiskOk
    (putPartsMeta toyHash "1" paintRed DiskOk [bracketV1]).2
  = (success, (putPartsMeta toyHash "1" paintRed DiskOk [bracketV1]).2).
Proof.
  apply (putPartsMeta_twice toyHash "1" paintRed DiskOk [bracketV1]).
  by vm_compute.
Defined.

End RoutesFacts.

(** * Properties of the panel *)

Module PanelFacts.
Import Viewer Panel ViewerFacts.

(** ** Traversals that only rewrite nodes *)

Lemma visited_map (f : NodeData → NodeData) (ds : list NodeData) :
  visited (λ (_ : unit) child, (tt, f child)) tt ds = f <$> ds.
Proof. induction ds as [|d ds IH]; [done|]. cbn. by rewrite IH. Qed.

Lemma eachNode_preorder f root :
  preorder (eachNode f root) = f <$> preorder root.
Proof.
  unfold eachNode.
  destruct (traverse_preorder (λ (_ : unit) child, (tt, f child)) root tt)
    as [_ ->].
  apply visited_map.
Qed.

Lemma filter_mesh_fmap (f : NodeData → NodeData) (ds : list NodeData) :
  (∀ d, isMesh (f d) = isMesh d) →
  filter isMeshP (f <$> ds) = f <$> filter isMeshP ds.
Proof.
  intros Hf. induction ds as [|d ds IH]; [done|].
  cbn [fmap list_fmap]. rewrite !filter_mesh_cons, Hf.
  destruct (isMesh d); cbn [fmap list_fmap]; by rewrite IH.
Qed.

Lemma eachNode_meshes f root :
  (∀ d, isMesh (f d) = isMesh d) →
  meshes (eachNode f root) = f <$> meshes root.
Proof.
  intros Hf. rewrite !meshes_eq, eachNode_preorder.
  by apply filter_mesh_fmap.
Qed.

Lemma meshes_are_meshes root d : d ∈ meshes root → isMesh d = true.
Proof.
  rewrite meshes_eq. intros [H _]%list_elem_of_filter.
  unfold isMeshP in H. by destruct (isMesh d).
Qed.

(** ** The layer list and the meshes stay in step *)

(** What the list shows of a part, and what the tree holds of a mesh. *)
Definition shown (p : Part) : option nat * bool := (Some (id p), visible p).
Definition held (d : NodeData) : option nat * bool :=
  (partId (userData d), nodeVisible d).

(** Without a model there are no parts; with one, the parts are numbered
    from 0, and the meshes of the model, in traversal order, carry the ids
    and the visibility of the parts, in list order. *)
Definition synced (v : State) : Prop :=
  match modelRef v with
  | None => parts v = []
  | Some root =>
      held <$> meshes root = shown <$> parts v
      ∧ id <$> parts v = seq 0 (length (parts v))
  end.

Lemma stamped_held (ds : list NodeData) : ∀ index newParts,
  held <$> filter isMeshP (visited stampPart (index, newParts) ds)
  = imap (λ i d, (Some (index + i), nodeVisible d)) (filter isMeshP ds).
Proof.
  induction ds as [|d ds IH]; intros index newParts; [done|].
  cbn [visited]. rewrite !filter_mesh_cons.
  destruct (isMesh d) eqn:Hd.
  - rewrite (stampPart_mesh _ _ _ Hd). cbn [fst snd isMesh stamped].
    rewrite Hd. cbn [fmap list_fmap imap]. f_equal.
    + unfold held. cbn. by rewrite Nat.add_0_r.
    + rewrite IH. apply imap_ext. intros i x _. cbn. do 2 f_equal. lia.
  - rewrite (stampPart_other _ _ Hd). cbn [fst snd]. rewrite Hd. apply IH.
Qed.

Lemma fresh_shown (ds : list NodeData) :
  shown <$> imap freshPart ds
  = imap (λ i d, (Some (0 + i), nodeVisible d)) ds.
Proof.
  apply list_eq. intros i.
  rewrite list_lookup_fmap, !list_lookup_imap. by destruct (ds !! i).
Qed.

Lemma fresh_ids (ds : list NodeData) :
  id <$> imap freshPart ds = seq 0 (length ds).
Proof.
  apply list_eq. intros i. rewrite list_lookup_fmap, list_lookup_imap.
  destruct (ds !! i) as [d|] eqn:Hi; cbn.
  - symmetry. apply lookup_seq. split; [done|]. by apply lookup_lt_Some in Hi.
  - symmetry. apply lookup_ge_None. rewrite length_seq.
    by apply lookup_ge_None in Hi.
Qed.

Lemma applyProjectPartsMeta_shown project (ps : list Part) :
  shown <$> applyProjectPartsMeta project ps = shown <$> ps
  ∧ id <$> applyProjectPartsMeta project ps = id <$> ps.
Proof.
  unfold applyProjectPartsMeta. destruct project as [project|]; [|done].
  destruct (pv_partsMeta project) as [meta|]; [|done].
  rewrite <- !list_fmap_compose.
  split; apply list_fmap_ext; intros i p _; cbn;
    by destruct (metaFor meta p).
Qed.

Lemma onLoad_synced l result v : synced (onLoad l result v).
Proof.
  unfold synced. destruct (onLoad_installs l result v) as [-> ->].
  set (root := rootFor (loader l) result).
  destruct (applyProjectPartsMeta_shown (onLoaded l)
              (updatePartsFromRoot root).2) as [-> Hid].
  assert (Hlen : length (applyProjectPartsMeta (onLoaded l)
                           (updatePartsFromRoot root).2)
                 = length (updatePartsFromRoot root).2).
  { by rewrite <- (length_fmap id), Hid, length_fmap. }
  rewrite Hlen, Hid, meshes_eq, stamped_tree_preorder, stamped_held.
  rewrite updatePartsFromRoot_eq. cbn [snd].
  rewrite fresh_shown, length_imap. split; [done|apply fresh_ids].
Qed.

(** A handler that rewrites the meshes with [g] and the parts with [h]
    keeps the two in step when [g] and [h] do the same to what is held and
    shown. *)
Lemma synced_rewrite (v v' : State) (g : NodeData → NodeData)
    (h : Part → Part) (G : option nat * bool → option nat * bool) :
  synced v →
  (∀ d, isMesh (g d) = isMesh d) →
  (∀ d, isMesh d = true → held (g d) = G (held d)) →
  (∀ p, shown (h p) = G (shown p)) →
  (∀ p, id (h p) = id p) →
  parts v' = h <$> parts v →
  modelRef v' = eachNode g <$> modelRef v →
  synced v'.
Proof.
  unfold synced. intros Hs Hg Hheld Hshown Hid -> ->.
  destruct (modelRef v) as [root|]; cbn [fmap option_fmap option_map].
  - destruct Hs as [Hs Hids]. split.
    + rewrite eachNode_meshes by done.
      rewrite <- !list_fmap_compose.
      rewrite (list_fmap_ext (held ∘ g) (G ∘ held) (meshes root)).
      * rewrite (list_fmap_ext (shown ∘ h) (G ∘ shown) (parts v))
          by (intros; apply Hshown).
        by rewrite !list_fmap_compose, Hs.
      * intros i d Hd. apply Hheld, (meshes_are_meshes root).
        by eapply list_elem_of_lookup_2.
    + rewrite length_fmap, <- Hids, <- list_fmap_compose.
      apply list_fmap_ext. intros; apply Hid.
  - by rewrite Hs.
Qed.

Lemma eachNode_id root : eachNode (λ d, d) root = root.
Proof.
  unfold eachNode.
  induction root as [d cs IH] using Object3D_ind.
  change (traverse (λ (_ : unit) child, (tt, child)) tt (Obj d cs))
    with (let '(s2, cs') :=
            traverseEach (λ (_ : unit) child, (tt, child)) tt cs in
          (s2, Obj d cs')).
  assert (H : traverseEach (λ (_ : unit) child, (tt, child)) tt cs
              = (tt, cs)).
  { induction IH as [|c cs Hc _ IHcs]; [done|]. cbn.
    destruct (traverse (λ (_ : unit) child, (tt, child)) tt c) as [[] c'].
    cbn in Hc. subst c'. by rewrite IHcs. }
  by rewrite H.
Qed.

Lemma synced_parts (v v' : State) (h : Part → Part) :
  synced v →
  (∀ p, shown (h p) = shown p) →
  (∀ p, id (h p) = id p) →
  parts v' = h <$> parts v →
  modelRef v' = modelRef v →
  synced v'.
Proof.
  intros Hs Hshown Hid Hp Hm.
  apply (synced_rewrite v v' (λ d, d) h (λ x, x)); try done.
  rewrite Hm. destruct (modelRef v); [|done]. cbn. by rewrite eachNode_id.
Qed.

Lemma onPart_fmap k f (ps : list Part) :
  onPart k f ps = (λ p, if decide (id p = k) then f p else p) <$> ps.
Proof. reflexivity. Qed.

Lemma restyled_held k c m d : held (restyled k c m d) = held d.
Proof. unfold restyled. by destruct (_ && _). Qed.

Lemma restyled_isMesh k c m d : isMesh (restyled k c m d) = isMesh d.
Proof. unfold restyled. by destruct (_ && _). Qed.

Lemma updatePartMeshAppearance_model k c m v :
  modelRef (updatePartMeshAppearance k c m v)
  = eachNode (restyled k c m) <$> modelRef v
  ∧ parts (updatePartMeshAppearance k c m v) = parts v.
Proof.
  unfold updatePartMeshAppearance. destruct (modelRef v) eqn:E; cbn.
  - by split.
  - by rewrite E.
Qed.

Lemma setAllPartsVisible_synced value v :
  synced v → synced (setAllPartsVisible value v).
Proof.
  intros Hs.
  apply (synced_rewrite v _
           (λ child, if isMesh child
                        && bool_decide (is_Some (partId (userData child)))
                     then withNodeVisible value child else child)
           (setVisible value)
           (λ tb, (tb.1, if bool_decide (is_Some tb.1) then value else tb.2)));
    [exact Hs|..].
  - intros d. by destruct (_ && _).
  - intros d ->. unfold held. cbn [andb fst snd]. by case_bool_decide.
  - done.
  - done.
  - unfold setAllPartsVisible. cbn. by destruct (modelRef v) eqn:E.
  - unfold setAllPartsVisible. cbn. destruct (modelRef v) eqn:E; cbn; [done|].
    by rewrite E.
Qed.

Lemma handleTogglePartVisible_synced k checked v :
  synced v → synced (handleTogglePartVisible k checked v).
Proof.
  intros Hs.
  apply (synced_rewrite v _
           (λ child, if isMesh child
                        && bool_decide (partId (userData child) = Some k)
                     then withNodeVisible checked child else child)
           (λ p, if decide (id p = k) then setVisible checked p else p)
           (λ tb, (tb.1, if bool_decide (tb.1 = Some k) then checked
                         else tb.2)));
    [exact Hs|..].
  - intros d. by destruct (_ && _).
  - intros d ->. unfold held. cbn [andb fst snd]. by case_bool_decide.
  - intros p. unfold shown. cbn. case_decide; case_bool_decide; naive_solver.
  - intros p. by case_decide.
  - unfold handleTogglePartVisible. cbn. by destruct (modelRef v) eqn:E.
  - unfold handleTogglePartVisible. cbn.
    destruct (modelRef v) eqn:E; cbn; [done|]. by rewrite E.
Qed.

Lemma handleChangePartColor_synced k c v :
  synced v → synced (handleChangePartColor k c v).
Proof.
  intros Hs. unfold handleChangePartColor.
  match goal with |- synced (updatePartMeshAppearance ?k ?c ?m ?v1) =>
    destruct (updatePartMeshAppearance_model k c m v1) as [Hm Hp];
    apply (synced_rewrite v _ (restyled k c m)
             (λ p, if decide (id p = k) then setColor c p else p)
             (λ x, x)); try done
  end.
  - apply restyled_isMesh.
  - intros d _. apply restyled_held.
  - intros p. by case_decide.
  - intros p. by case_decide.
Qed.

Lemma handleChangePartMaterial_synced k m v :
  synced v → synced (handleChangePartMaterial k m v).
Proof.
  intros Hs. unfold handleChangePartMaterial.
  match goal with |- synced (updatePartMeshAppearance ?k ?c ?m ?v1) =>
    destruct (updatePartMeshAppearance_model k c m v1) as [Hm Hp];
    apply (synced_rewrite v _ (restyled k c m)
             (λ p, if decide (id p = k) then setPreset m p else p)
             (λ x, x)); try done
  end.
  - apply restyled_isMesh.
  - intros d _. apply restyled_held.
  - intros p. by case_decide.
  - intros p. by case_decide.
Qed.

Lemma step_synced w e w' :
  synced (app w) → step w e = Some w' → synced (app w').
Proof.
  intros Hs. destruct e as [f u|pid|i r|i]; cbn [step].
  - intros [= <-]. exact Hs.
  - intros [= <-]. cbn [app started]. unfold handleLoadProject.
    destruct (list_find _ _) as [[? project]|]; [|done].
    destruct (pv_modelUrl project); [|done].
    by destruct (String.eqb _ _).
  - destruct (inflight w !! i) as [l|]; [|done]. intros [= <-].
    apply onLoad_synced.
  - destruct (inflight w !! i) as [l|]; [|done]. by intros [= <-].
Qed.

Lemma act_synced pg a pg' :
  synced (app (world pg)) → act pg a = Some pg' → synced (app (world pg')).
Proof.
  intros Hs.
  destruct a as [e|value|k checked|k newName|k newNotes|k newColor
                |k newPreset|k|intersects];
    cbn [act]; try (intros [= <-]; cbn [onApp world app]).
  - destruct (step (world pg) e) as [w|] eqn:He; [|done]. intros [= <-].
    by eapply step_synced.
  - by apply setAllPartsVisible_synced.
  - by apply handleTogglePartVisible_synced.
  - eapply (synced_parts (app (world pg)) _
              (λ p, if decide (id p = k) then setName (JStr newName) p
                    else p)); try done; intros p; by case_decide.
  - eapply (synced_parts (app (world pg)) _
              (λ p, if decide (id p = k) then setNotes (JStr newNotes) p
                    else p)); try done; intros p; by case_decide.
  - by apply handleChangePartColor_synced.
  - by apply handleChangePartMaterial_synced.
  - exact Hs.
  - unfold handleClickOnCanvas. destruct (hitMesh intersects); [|done].
    by destruct (findPart _ _).
Qed.

(** X9. Whatever the user does in the panel and whenever the loads end,
    the layer list and the model stay in step: once they are (as when the
    component is mounted, with no model and no parts), after any sequence
    of actions the parts are numbered 0, 1, ... without gap, there is one
    part per mesh of the model, and each part has the id and the visibility
    of its mesh. *)
Theorem layers_stay_in_step (pg pg' : Page) (l : list Action) :
  synced (app (world pg)) →
  acts pg l = Some pg' →
  synced (app (world pg')).
Proof.
  revert pg. induction l as [|a l IH]; intros pg Hs; cbn [acts].
  - by intros [= <-].
  - destruct (act pg a) as [pg1|] eqn:Ha; [|done]. cbn [mbind option_bind].
    apply IH. by eapply act_synced.
Qed.

(** The page as mounted, and a session on it: project 1 is loaded, its
    second layer is hidden, then recoloured; project 2 is loaded and its
    load ends before all layers are shown again. *)
Definition mountedPage : Page :=
  {| world := mounted; selectedPartInfo := None |}.

Definition session : list Action :=
  [ LoadEvent (ProjectChosen 1); LoadEvent (Loaded 0 bracket);
    TogglePartVisible 1 false; ChangePartColor 1 "#ff0000";
    LoadEvent (ProjectChosen 2); LoadEvent (Loaded 0 geometry);
    AllPartsVisible true ].

Lemma layers_stay_in_step_witness :
  ∃ pg', acts mountedPage session = Some pg' ∧ synced (app (world pg')).
Proof.
  destruct (acts mountedPage session) as [pg'|] eqn:H;
    [|by vm_compute in H].
  exists pg'. split; [done|].
  apply (layers_stay_in_step mountedPage pg' session); [reflexivity|exact H].
Defined.

(** ** Selecting with the pointer *)

(** The object is in the scene: its chain of parents ends with the scene,
    which carries no [partId]. *)
Definition inScene (h : Hit) : Prop := last (ancestors h) = Some None.

Lemma climb_in_scene (parents : list (option nat)) : ∀ t,
  last parents = Some None → climb t parents ≠ Some 0.
Proof.
  induction parents as [|parent rest IH]; intros t Hlast; [done|].
  assert (Hrest : climb parent rest ≠ Some 0).
  { destruct rest as [|r rest'].
    - cbn in Hlast. by injection Hlast as ->.
    - by apply IH. }
  by destruct t as [[|n]|].
Qed.

Lemma hitMesh_in_scene (intersects : list Hit) :
  Forall inScene intersects → hitMesh intersects ≠ Some 0.
Proof.
  induction 1 as [|h rest Hh _ IH]; [done|]. cbn [hitMesh].
  pose proof (climb_in_scene (ancestors h) (tag h) Hh).
  by destruct (climb (tag h) (ancestors h)) as [[|n]|].
Qed.

(** X10. A click never selects the part with id 0. When every object that
    the ray meets is in the scene, the click either changes nothing or
    opens the details of a part with a positive id and shows its name and
    notes; so for a model whose only part is part 0 (every STL and PLY
    model) a click changes nothing. A mesh with a positive id that is met
    first is selected when the list has a part with that id. *)
Theorem click_never_selects_part_0 (intersects : list Hit) (pg : Page) :
  Forall inScene intersects →
  let pg' := handleClickOnCanvas intersects pg in
  (pg' = pg
   ∨ ∃ n part,
       findPart (S n) (parts (app (world pg))) = Some part
       ∧ editingPartId (app (world pg')) = Some (S n)
       ∧ selectedPartInfo pg'
         = Some {| info_id := S n; info_name := name part;
                   info_notes := js_or (notes part) (JStr "") |})
  ∧ (id <$> parts (app (world pg)) = [0] → pg' = pg)
  ∧ (∀ first rest n part,
       intersects = first :: rest → tag first = Some (S n) →
       findPart (S n) (parts (app (world pg))) = Some part →
       editingPartId (app (world pg')) = Some (S n)).
Proof.
  intros Hin. cbn zeta. pose proof (hitMesh_in_scene _ Hin) as H0.
  unfold handleClickOnCanvas. split_and!.
  - destruct (hitMesh intersects) as [[|n]|]; [done| |by left].
    destruct (findPart (S n) _) as [part|] eqn:Hp; [|by left].
    right. by exists n, part.
  - intros Hids. destruct (hitMesh intersects) as [[|n]|]; [done| |done].
    destruct (findPart (S n) _) as [part|] eqn:Hp; [|done].
    unfold findPart in Hp. apply fmap_Some in Hp as ([j q] & Hq & ->).
    apply list_find_Some in Hq as (Hj & Hid & _).
    assert (Hq : id q ∈ id <$> parts (app (world pg))).
    { apply list_elem_of_fmap_2. by eapply list_elem_of_lookup_2. }
    rewrite Hids in Hq. apply list_elem_of_singleton in Hq. cbn in Hid. lia.
  - intros first rest n part -> Ht Hp. cbn [hitMesh]. rewrite Ht.
    destruct (ancestors first); cbn [climb]; by rewrite Hp.
Qed.

Lemma click_never_selects_part_0_witness :
  handleClickOnCanvas
    [ {| tag := Some 0; ancestors := [None] |};
      {| tag := None; ancestors := [None] |} ]
    {| world := afterB; selectedPartInfo := None |}
  = {| world := afterB; selectedPartInfo := None |}.
Proof.
  apply (click_never_selects_part_0
           [ {| tag := Some 0; ancestors := [None] |};
             {| tag := None; ancestors := [None] |} ]
           {| world := afterB; selectedPartInfo := None |}).
  - by repeat constructor.
  - by vm_compute.
Defined.

(** ** Colours on the meshes *)

(** The colour of the material of a node. *)
Definition meshColor (d : NodeData) : option jsval :=
  match material d with
  | PhongMaterial m => Some (ph_color m)
  | NoMaterial | OtherMaterial => None
  end.

Definition tint (d : NodeData) : option jsval * option jsval :=
  (baseColor (userData d), meshColor d).

Lemma getPartColor_truthy index :
  js_or (getPartColor index) (JStr "#ffffff") = getPartColor index.
Proof.
  unfold getPartColor. change (length PART_COLORS) with 8.
  assert (H : index `mod` 8 < 8) by (apply Nat.mod_upper_bound; lia).
  remember (index `mod` 8) as k eqn:Hk. clear Hk.
  do 8 (destruct k as [|k]; [done|]). lia.
Qed.

Lemma stamped_tint (ds : list NodeData) : ∀ index newParts,
  tint <$> filter isMeshP (visited stampPart (index, newParts) ds)
  = imap (λ i _, (Some (getPartColor (index + i)),
                  Some (getPartColor (index + i))))
      (filter isMeshP ds).
Proof.
  induction ds as [|d ds IH]; intros index newParts; [done|].
  cbn [visited]. rewrite !filter_mesh_cons.
  destruct (isMesh d) eqn:Hd.
  - rewrite (stampPart_mesh _ _ _ Hd). cbn [fst snd isMesh stamped].
    rewrite Hd. cbn [fmap list_fmap imap]. f_equal.
    + unfold tint, meshColor, stamped, plasticMaterial,
        createMaterialForPart.
      rewrite Nat.add_0_r. cbn [material userData baseColor].
      destruct (material d); cbn [ph_color];
        by rewrite ?getPartColor_truthy.
    + rewrite IH. apply imap_ext. intros i x _. cbn. do 3 f_equal; lia.
  - rewrite (stampPart_other _ _ Hd). cbn [fst snd]. rewrite Hd. apply IH.
Qed.

Lemma getPartColor_palette index :
  ∃ c, c ∈ PART_COLORS ∧ getPartColor index = JStr c.
Proof.
  unfold getPartColor.
  assert (H : index `mod` length PART_COLORS < length PART_COLORS)
    by (apply Nat.mod_upper_bound; done).
  apply lookup_lt_is_Some in H as [c Hc]. exists c. rewrite Hc.
  split; [by eapply list_elem_of_lookup_2|done].
Qed.

(** X11. A load that ends leaves on every mesh of the new model the
    palette colour of its index as base colour tag, and a colour of the
    palette as colour of its material, whatever the saved metadata of the
    project says: saved colours reach the layer list only. *)
Theorem loads_keep_the_palette_on_meshes (l : Load) (result : Object3D)
    (v : State) :
  ∃ root',
    modelRef (onLoad l result v) = Some root'
    ∧ baseColor ∘ userData <$> meshes root'
      = imap (λ i _, Some (getPartColor i))
          (meshes (rootFor (loader l) result))
    ∧ Forall (λ d, ∃ c, c ∈ PART_COLORS ∧ meshColor d = Some (JStr c))
        (meshes root').
Proof.
  destruct (onLoad_installs l result v) as [-> _]. eexists.
  split; [reflexivity|].
  pose proof (stamped_tint (preorder (rootFor (loader l) result)) 0 [])
    as Htint.
  rewrite <- stamped_tree_preorder, <- !meshes_eq in Htint. split.
  - apply (f_equal (fmap fst)) in Htint.
    rewrite <- list_fmap_compose, fmap_imap in Htint. exact Htint.
  - apply Forall_forall. intros d [i Hd]%list_elem_of_lookup.
    apply (f_equal (λ ts, snd <$> ts !! i)) in Htint.
    rewrite list_lookup_fmap, Hd, list_lookup_imap in Htint.
    cbn in Htint.
    destruct (meshes (rootFor (loader l) result) !! i); [|done].
    cbn in Htint. injection Htint as Hcol.
    destruct (getPartColor_palette i) as (c & Hc & Heq).
    exists c. split; [done|]. by rewrite Hcol, <- Heq.
Qed.

(** ** What is saved comes back *)

Lemma partsMetaToSave_snoc (ps : list Part) p :
  partsMetaToSave (ps ++ [p])
  = <[pretty (id p) := savedEntry p]> (partsMetaToSave ps).
Proof. unfold partsMetaToSave. by rewrite foldl_app. Qed.

Lemma partsMetaToSave_lookup (ps : list Part) :
  NoDup (id <$> ps) →
  ∀ p, p ∈ ps → partsMetaToSave ps !! pretty (id p) = Some (savedEntry p).
Proof.
  induction ps as [|q ps IH] using rev_ind; intros Hnd p Hp.
  - by apply elem_of_nil in Hp.
  - rewrite partsMetaToSave_snoc. rewrite fmap_app in Hnd.
    apply NoDup_app in Hnd as (Hnd & Hfresh & _).
    apply elem_of_app in Hp as [Hp|Hp].
    + rewrite lookup_insert_ne; [by apply IH|].
      intros Heq%(inj pretty). apply (Hfresh (id p)).
      * by apply list_elem_of_fmap_2.
      * rewrite <- Heq. cbn. apply list_elem_of_here.
    + apply list_elem_of_singleton in Hp as ->. apply lookup_insert_eq.
Qed.

(** X12. What [handleCreateProject] saves of the parts comes back on a
    reload: when the ids of the parts are pairwise distinct and a project
    holds the [partsMeta] built from them, laying it over a fresh part
    list with the same ids gives every part its saved notes, and its saved
    name, colour and material preset when these are truthy; the
    visibility is the fresh one, as it is not saved. *)
Theorem saved_parts_come_back (ps fresh : list Part) (project : ProjectView)
    (i : nat) (p q : Part) :
  NoDup (id <$> ps) →
  pv_partsMeta project = Some (partsMetaToSave ps) →
  ps !! i = Some p → fresh !! i = Some q → id q = id p →
  ∃ r, applyProjectPartsMeta (Some project) fresh !! i = Some r
     ∧ id r = id p
     ∧ visible r = visible q
     ∧ notes r = js_or (notes p) (JStr "")
     ∧ (truthy (name p) = true → name r = name p)
     ∧ (truthy (color p) = true → color r = color p)
     ∧ (truthy (materialPreset p) = true →
        materialPreset r = materialPreset p).
Proof.
  intros Hnd Hmeta Hp Hq Hid. unfold applyProjectPartsMeta.
  rewrite Hmeta, list_lookup_fmap, Hq. cbn [fmap option_fmap option_map].
  rewrite metaFor_lookup, Hid.
  rewrite (partsMetaToSave_lookup ps Hnd p)
    by by eapply list_elem_of_lookup_2.
  eexists. split; [reflexivity|]. unfold overlay, savedEntry, js_or.
  cbn [id visible notes name color materialPreset m_name m_notes m_color
       m_materialPreset].
  split_and!; try done.
  - by destruct (truthy (notes p)) eqn:E; [destruct (notes p)|].
  - by intros ->.
  - intros Hc. by rewrite !Hc.
  - intros Hc. by rewrite !Hc.
Qed.

Definition painted : list Part :=
  [ {| id := 0; name := JStr "base"; visible := false;
       color := JStr "#ff0000"; materialPreset := JStr "metal";
       notes := JStr "lijar" |};
    {| id := 1; name := JStr "tapa"; visible := true;
       color := JStr "#00ff00"; materialPreset := JStr "glass";
       notes := JStr "" |} ].

Lemma saved_parts_come_back_witness :
  ∃ r, applyProjectPartsMeta
         (Some (projectWith (partsMetaToSave painted)))
         (imap freshPart (meshes bracket)) !! 0 = Some r
     ∧ color r = JStr "#ff0000" ∧ visible r = true.
Proof.
  destruct (saved_parts_come_back painted (imap freshPart (meshes bracket))
              (projectWith (partsMetaToSave painted)) 0
              {| id := 0; name := JStr "base"; visible := false;
                 color := JStr "#ff0000"; materialPreset := JStr "metal";
                 notes := JStr "lijar" |}
              (freshPart 0 (meshData "base")))
    as (r & Hr & _ & Hv & _ & _ & Hc & _).
  - cbn. apply NoDup_cons. split; [|apply NoDup_singleton].
    by intros ?%list_elem_of_singleton.
  - reflexivity.
  - reflexivity.
  - by vm_compute.
  - reflexivity.
  - exists r. split; [exact Hr|]. split; [by apply Hc|exact Hv].
Defined.

(** ** Colour and material edits *)

(** The fields of the material that [updatePartMeshAppearance] sets. *)
Definition look (d : NodeData) : option (jsval * Z * Z * bool * Q) :=
  match material d with
  | PhongMaterial m =>
      Some (ph_color m, ph_shininess m, ph_specular m, ph_transparent m,
            ph_opacity m)
  | NoMaterial | OtherMaterial => None
  end.

Definition lookOf (c : jsval) (presetName : string)
  : jsval * Z * Z * bool * Q :=
  let preset := presetOf presetName in
  (c, shininess preset, specular preset, transparent preset, opacity preset).

(** The node is the mesh of part [k]. *)
Definition tagged (k : nat) (d : NodeData) : bool :=
  isMesh d && bool_decide (partId (userData d) = Some k).

Lemma js_or_again a b : js_or (js_or a b) b = js_or a b.
Proof.
  unfold js_or. destruct (truthy a) eqn:E; [by rewrite E|].
  by destruct (truthy b).
Qed.

Lemma restyled_tagged k c m d :
  tagged k d = true →
  look (restyled k c m d)
    = Some (lookOf (js_or c (JStr "#ffffff"))
              (js_String (js_or m (JStr "plastic"))))
  ∧ baseColor (userData (restyled k c m d))
    = Some (js_or c (JStr "#ffffff"))
  ∧ ud_materialPreset (userData (restyled k c m d))
    = Some (js_String (js_or m (JStr "plastic")))
  ∧ tagged k (restyled k c m d) = true.
Proof.
  unfold tagged, restyled. intros Ht. rewrite Ht.
  cbn [isMesh userData partId baseColor ud_materialPreset].
  split_and!; try done.
  unfold look, lookOf, createMaterialForPart. cbn [material].
  destruct (material d); cbn [ph_color ph_shininess ph_specular
                              ph_transparent ph_opacity];
    by rewrite ?js_or_again.
Qed.

Lemma restyled_untagged k c m d :
  tagged k d = false → restyled k c m d = d.
Proof. unfold tagged, restyled. by intros ->. Qed.

Lemma findPart_onPart k (f : Part → Part) (ps : list Part) part :
  (∀ p, id (f p) = id p) →
  findPart k ps = Some part →
  findPart k (onPart k f ps) = Some (f part).
Proof.
  intros Hf. unfold findPart, onPart. rewrite list_find_fmap.
  rewrite (list_find_ext
             ((λ p, id p = k) ∘ (λ p, if decide (id p = k) then f p else p))
             (λ p, id p = k)).
  - intros ([j q] & Hq & Heq)%fmap_Some. cbn in Heq. subst q.
    rewrite Hq. cbn.
    apply list_find_Some in Hq as (_ & Hid & _). by case_decide.
  - intros p. cbn. case_decide; [by rewrite Hf|done].
Qed.

Lemma preset_name_kept (m : string) :
  m ∈ MATERIAL_PRESETS.*1 → js_or (JStr m) (JStr "plastic") = JStr m.
Proof.
  intros Hm. unfold js_or. cbn.
  destruct (String.eqb_spec m "") as [->|]; [|done].
  vm_compute in Hm. by repeat (apply elem_of_cons in Hm as [Hm|Hm]; [done|]);
    apply elem_of_nil in Hm.
Qed.

(** What holds of a state in which part [k] has been given the colour [c]
    and the preset [m]: the list shows them, and the meshes of the part,
    which are the nodes that were its meshes in [v], carry them. *)
Definition styled (k : nat) (c m : string) (v v2 : State) : Prop :=
  (∃ p2, findPart k (parts v2) = Some p2
       ∧ color p2 = JStr c ∧ materialPreset p2 = JStr m)
  ∧ match modelRef v with
    | None => modelRef v2 = None
    | Some root =>
        ∃ root2,
          modelRef v2 = Some root2
          ∧ Forall2
              (λ d d2,
                 tagged k d2 = tagged k d
                 ∧ (tagged k d = true →
                    look d2
                    = Some (lookOf (js_or (JStr c) (JStr "#ffffff")) m)
                    ∧ baseColor (userData d2)
                      = Some (js_or (JStr c) (JStr "#ffffff"))
                    ∧ ud_materialPreset (userData d2) = Some m))
              (preorder root) (preorder root2)
    end.

Lemma styled_twice k (c m : string) (c1 c2 m1 m2 : jsval) (v v2 : State) ps2 :
  js_or c2 (JStr "#ffffff") = js_or (JStr c) (JStr "#ffffff") →
  js_or m2 (JStr "plastic") = JStr m →
  (∃ p2, findPart k ps2 = Some p2
       ∧ color p2 = JStr c ∧ materialPreset p2 = JStr m) →
  parts v2 = ps2 →
  modelRef v2
  = eachNode (restyled k c2 m2) <$> (eachNode (restyled k c1 m1)
                                        <$> modelRef v) →
  styled k c m v v2.
Proof.
  intros Hc Hm Hp <- Hmodel. split; [done|].
  rewrite Hmodel. destruct (modelRef v) as [root|]; [|done].
  cbn [fmap option_fmap option_map]. eexists. split; [reflexivity|].
  rewrite !eachNode_preorder, <- list_fmap_compose.
  apply Forall2_fmap_r, Forall_Forall2_diag, Forall_forall. intros d _.
  cbn. destruct (tagged k d) eqn:Ht.
  - destruct (restyled_tagged k c1 m1 d Ht) as (_ & _ & _ & Ht1).
    destruct (restyled_tagged k c2 m2 _ Ht1) as (-> & -> & -> & ->).
    by rewrite Hc, Hm.
  - rewrite !restyled_untagged by by rewrite ?restyled_untagged.
    by rewrite Ht.
Qed.

(** X14. Colour and material edits of a part compose, in either order:
    after the colour [c] and a preset [m] of the table have been chosen
    for a part of the list, the list shows both, and every mesh of the
    part has the colour [c] (white for an empty one) with the shininess,
    specular colour, transparency and opacity of [m], whatever material it
    had, and holds [c] and [m] as tags; the meshes of the part are the
    nodes that were its meshes before. *)
Theorem colour_and_material_edits_compose (k : nat) (c m : string)
    (v : State) (part : Part) :
  findPart k (parts v) = Some part →
  m ∈ MATERIAL_PRESETS.*1 →
  styled k c m v (handleChangePartMaterial k m (handleChangePartColor k c v))
  ∧ styled k c m v
      (handleChangePartColor k c (handleChangePartMaterial k m v)).
Proof.
  intros Hpart Hm. pose proof (preset_name_kept m Hm) as Hname. split.
  - unfold handleChangePartMaterial.
    set (v1 := handleChangePartColor k c v).
    assert (Hp1 : findPart k (parts v1) = Some (setColor (JStr c) part)).
    { unfold v1, handleChangePartColor.
      match goal with |- context [updatePartMeshAppearance ?a ?b ?e ?s] =>
        destruct (updatePartMeshAppearance_model a b e s) as [_ ->] end.
      by apply findPart_onPart. }
    assert (Hm1 : ∃ c1 m1, modelRef v1
                           = eachNode (restyled k c1 m1) <$> modelRef v).
    { unfold v1, handleChangePartColor.
      match goal with |- context [updatePartMeshAppearance ?a ?b ?e ?s] =>
        destruct (updatePartMeshAppearance_model a b e s) as [-> _];
        by exists b, e end. }
    destruct Hm1 as (c1 & m1 & Hm1).
    match goal with |- styled _ _ _ _ (updatePartMeshAppearance ?a ?b ?e ?s) =>
      destruct (updatePartMeshAppearance_model a b e s) as [Hmod Hps];
      apply (styled_twice k c m c1 b m1 e v _
               (onPart k (setPreset (JStr m)) (parts v1)))
    end.
    + rewrite Hp1. cbn. apply js_or_again.
    + done.
    + eexists. split; [by apply findPart_onPart|done].
    + by rewrite Hps.
    + rewrite Hmod. cbn [modelRef withParts]. by rewrite Hm1.
  - unfold handleChangePartColor.
    set (v1 := handleChangePartMaterial k m v).
    assert (Hp1 : findPart k (parts v1) = Some (setPreset (JStr m) part)).
    { unfold v1, handleChangePartMaterial.
      match goal with |- context [updatePartMeshAppearance ?a ?b ?e ?s] =>
        destruct (updatePartMeshAppearance_model a b e s) as [_ ->] end.
      by apply findPart_onPart. }
    assert (Hm1 : ∃ c1 m1, modelRef v1
                           = eachNode (restyled k c1 m1) <$> modelRef v).
    { unfold v1, handleChangePartMaterial.
      match goal with |- context [updatePartMeshAppearance ?a ?b ?e ?s] =>
        destruct (updatePartMeshAppearance_model a b e s) as [-> _];
        by exists b, e end. }
    destruct Hm1 as (c1 & m1 & Hm1).
    match goal with |- styled _ _ _ _ (updatePartMeshAppearance ?a ?b ?e ?s) =>
      destruct (updatePartMeshAppearance_model a b e s) as [Hmod Hps];
      apply (styled_twice k c m c1 b m1 e v _
               (onPart k (setColor (JStr c)) (parts v1)))
    end.
    + done.
    + rewrite Hp1. cbn. by rewrite js_or_again.
    + eexists. split; [by apply findPart_onPart|done].
    + by rewrite Hps.
    + rewrite Hmod. cbn [modelRef withParts]. by rewrite Hm1.
Qed.

Lemma colour_and_material_edits_compose_witness :
  styled 1 "#ff0000" "metal" (app afterA)
    (handleChangePartMaterial 1 "metal"
       (handleChangePartColor 1 "#ff0000" (app afterA)))
  ∧ styled 1 "#ff0000" "metal" (app afterA)
      (handleChangePartColor 1 "#ff0000"
         (handleChangePartMaterial 1 "metal" (app afterA))).
Proof.
  destruct (findPart 1 (parts (app afterA))) as [part|] eqn:Hpart;
    [|by vm_compute in Hpart].
  apply (colour_and_material_edits_compose 1 "#ff0000" "metal" (app afterA)
           part Hpart).
  vm_compute. apply list_elem_of_further, list_elem_of_here.
Defined.

(** ** Choosing a file or a project *)

(** X17. Choosing a file or a project does not touch the model or the
    layer list: they stay those of the previous load until the new load
    ends, and for good when it fails. Meanwhile the current project has
    already changed: after a file is chosen there is none, so no part can
    be saved; after a project is chosen, a part that is saved is a part of
    the model still shown, sent to the id of the newly chosen project. *)
Theorem choosing_keeps_the_model (v : State) :
  (∀ fileName objUrl,
     let v1 := (handleFileChange fileName objUrl v).1 in
     modelRef v1 = modelRef v ∧ parts v1 = parts v
     ∧ ∀ k pwd, savePartMetaRequest k pwd v1 = None)
  ∧ (∀ projectId v1 l,
       handleLoadProject projectId v = (v1, Some l) →
       modelRef v1 = modelRef v ∧ parts v1 = parts v
       ∧ currentProjectId v1 = Some projectId
       ∧ ∀ k pwd reqId body,
           savePartMetaRequest k pwd v1 = Some (reqId, body) →
           reqId = pretty projectId ∧ is_Some (findPart k (parts v)))
  ∧ (∀ w i w', inflight w !! i = Some w' →
       ∃ w1, step w (LoadFailed i) = Some w1 ∧ app w1 = app w).
Proof.
  split_and!.
  - intros fileName objUrl. by cbn.
  - intros projectId v1 l. unfold handleLoadProject.
    destruct (list_find _ _) as [[j project]|] eqn:Hfind; [|done].
    apply list_find_Some in Hfind as (_ & Hid & _).
    destruct (pv_modelUrl project); [|done].
    destruct (String.eqb _ _); [done|].
    intros [= <- Hl]. cbn [modelRef parts currentProjectId].
    split_and!; try done; [by rewrite Hid|].
    intros k pwd reqId body. unfold savePartMetaRequest.
    cbn [currentProjectId parts]. destruct (_ =? _)%Z; [done|].
    destruct (findPart k (parts v)) as [part|]; [|done].
    destruct pwd as [pwd|]; [|done]. destruct (String.eqb pwd ""); [done|].
    intros [= <- _]. by rewrite Hid.
  - intros w i l Hl. cbn [step]. rewrite Hl. by eexists.
Qed.

(** No dot in the string. *)
Fixpoint noDot (s : string) : bool :=
  match s with
  | EmptyString => true
  | String c r => negb (Ascii.eqb c ".") && noDot r
  end.

Lemma append_nil_r (s : string) : s +:+ "" = s.
Proof.
  induction s as [|a s IH]; [done|].
  change (String a s +:+ "") with (String a (s +:+ "")). by rewrite IH.
Qed.

Lemma append_assoc (s t u : string) : (s +:+ t) +:+ u = s +:+ t +:+ u.
Proof.
  induction s as [|a s IH]; [done|].
  change ((String a s +:+ t) +:+ u) with (String a ((s +:+ t) +:+ u)).
  by rewrite IH.
Qed.

Lemma split_pop_noDot (ext : string) : ∀ acc,
  noDot ext = true → split_pop acc ext = acc +:+ ext.
Proof.
  induction ext as [|c r IH]; intros acc Hd.
  - by rewrite append_nil_r.
  - cbn [noDot] in Hd. cbn [split_pop].
    destruct (Ascii.eqb c "."); [done|].
    rewrite IH by done. by rewrite append_assoc.
Qed.

Lemma split_pop_last (ext base : string) : ∀ acc,
  noDot ext = true → split_pop acc (base +:+ "." +:+ ext) = ext.
Proof.
  intros acc Hd. revert acc.
  induction base as [|c r IH]; intros acc.
  - change ("" +:+ "." +:+ ext) with (String "." ext). cbn [split_pop].
    rewrite Ascii.eqb_refl. by rewrite split_pop_noDot.
  - change (String c r +:+ "." +:+ ext)
      with (String c (r +:+ "." +:+ ext)).
    cbn [split_pop]. destruct (Ascii.eqb c "."); apply IH.
Qed.

(** X18. The format of a chosen file is read from what follows the last
    dot of its name, without regard to case: for a name [base.ext] whose
    [ext] holds no dot, the load that starts, if any, is the one of the
    loader for [ext] in lower case, and that lower-case extension becomes
    the model type. *)
Theorem format_is_the_last_extension (base ext objUrl : string)
    (v : State) :
  noDot ext = true →
  let started := handleFileChange (base +:+ "." +:+ ext) objUrl v in
  modelTypeRef started.1 = toLowerCase ext
  ∧ started.2
    = (λ k, {| loader := k; url := objUrl; onLoaded := None |})
        <$> loaderFor (toLowerCase ext).
Proof.
  intros Hd. cbn zeta. unfold handleFileChange. cbn [fst snd modelTypeRef].
  by rewrite split_pop_last.
Qed.

Lemma format_is_the_last_extension_witness :
  (handleFileChange "Soporte.v2.STL" "blob:1f" (app mounted)).2
  = Some {| loader := STLLoader; url := "blob:1f"; onLoaded := None |}.
Proof.
  apply (format_is_the_last_extension "Soporte.v2" "STL" "blob:1f"
           (app mounted)).
  reflexivity.
Defined.

End PanelFacts.

(** * The viewer and the server together *)

Module EndToEnd.
Import Viewer Panel Server.

Section Facts.

Variable hashPassword : string → string.

Lemma metaFor_lookup_aux (meta : gmap string PartMeta) p :
  metaFor meta p = meta !! pretty (Viewer.id p).
Proof. apply ViewerFacts.metaFor_lookup. Qed.

Lemma property_key_aux (n : nat) :
  js_String (JNum (Z.of_nat n)) = pretty n.
Proof. apply ViewerFacts.property_key. Qed.

Lemma savePartMetaRequest_Some k pwd v reqId body :
  savePartMetaRequest k (Some pwd) v = Some (reqId, body) →
  ∃ projectId part,
    currentProjectId v = Some projectId
    ∧ findPart k (parts v) = Some part
    ∧ pwd ≠ ""
    ∧ reqId = pretty projectId
    ∧ body = {| pm_partId := JNum (Z.of_nat k);
                pm_name := Viewer.name part;
                pm_notes := js_or (notes part) (JStr "");
                pm_color := js_or (color part) (JStr "#22c55e");
                pm_materialPreset :=
                  js_or (materialPreset part) (JStr "plastic");
                pm_password := JStr pwd |}.
Proof.
  unfold savePartMetaRequest.
  destruct (currentProjectId v) as [projectId|]; [|done].
  destruct (projectId =? 0)%Z; [done|].
  destruct (findPart k (parts v)) as [part|]; [|done].
  destruct (String.eqb_spec pwd ""); [done|]. intros [= <- <-].
  by exists projectId, part.
Qed.

Lemma js_or_default_truthy a (s : string) :
  s ≠ "" → truthy (js_or a (JStr s)) = true.
Proof.
  intros Hs. unfold js_or. destruct (truthy a) eqn:E; [done|]. cbn.
  by destruct (String.eqb_spec s "").
Qed.

Lemma truthy_defined a : truthy a = true → defined a = true.
Proof. by destruct a. Qed.

Lemma js_or_notes_defined a : defined (js_or a (JStr "")) = true.
Proof. unfold js_or. destruct (truthy a) eqn:E; [|done]. by destruct a. Qed.

(** X13. Saving one part and loading the project again. The request that
    [handleSavePartMeta] builds for part [k], sent with the password of
    the current project, is stored; in the project list read afterwards,
    the metadata of the project laid over a fresh part list gives the part
    with id [k] the colour, the material preset and the notes of the saved
    part ("#22c55e", "plastic" and "" for falsy ones) and its name when
    that is truthy, and gives every other part what it got before the
    request. *)
Theorem saved_part_meta_comes_back (v : State) (k : nat) (pwd : string)
    (part : Part) (projects : Db) (reqId : string) (body : PartsMetaBody)
    (i : nat) (project : Project) (fresh : list Part) (j : nat) (q : Part) :
  savePartMetaRequest k (Some pwd) v = Some (reqId, body) →
  findPart k (parts v) = Some part →
  findProject projects reqId = Some (i, project) →
  hashPassword pwd = passwordHash project →
  fresh !! j = Some q →
  let sent := putPartsMeta hashPassword reqId body DiskOk projects in
  ∃ view before r,
    sent.1 = success
    ∧ getProjects sent.2 !! i = Some view
    ∧ getProjects projects !! i = Some before
    ∧ pv_id view = Server.id project
    ∧ applyProjectPartsMeta (Some view) fresh !! j = Some r
    ∧ (Viewer.id q = k →
       color r = js_or (color part) (JStr "#22c55e")
       ∧ materialPreset r = js_or (materialPreset part) (JStr "plastic")
       ∧ notes r = js_or (notes part) (JStr "")
       ∧ (truthy (Viewer.name part) = true →
          Viewer.name r = Viewer.name part))
    ∧ (Viewer.id q ≠ k →
       applyProjectPartsMeta (Some before) fresh !! j = Some r).
Proof.
  intros Hreq Hpart Hfind Hhash Hq. cbn zeta.
  apply savePartMetaRequest_Some
    in Hreq as (projectId & part' & _ & Hpart' & Hpwd & -> & ->).
  rewrite Hpart in Hpart'. injection Hpart' as <-.
  unfold putPartsMeta. cbn [pm_partId pm_password defined negb].
  rewrite (ServerFacts.authorized_ok hashPassword _ _ pwd i project)
    by done.
  cbn [savedBare fst snd].
  pose proof (ServerFacts.findProject_lookup _ _ _ _ Hfind) as [Hi _].
  assert (Hlt : i < length projects) by by apply lookup_lt_Some in Hi.
  destruct (decide (Viewer.id q = k)) as [Hk|Hne];
    eexists _, _, _; (split; [done|]); unfold getProjects;
    rewrite !list_lookup_fmap, list_lookup_insert_eq, Hi by done;
    cbn [fmap option_fmap option_map];
    do 3 (split; [reflexivity|]);
    unfold applyProjectPartsMeta;
    cbn [pv_partsMeta partsMeta withPartsMeta default from_option];
    unfold Datatypes.id; rewrite !list_lookup_fmap, Hq;
    cbn [fmap option_fmap option_map]; rewrite !metaFor_lookup_aux;
    rewrite property_key_aux;
    rewrite ServerFacts.withEntry_own
      by (right; apply ServerFacts.inherited_numeral,
                       ServerFacts.pretty_nat_numeral).
  - rewrite Hk, lookup_insert_eq. split; [reflexivity|]. split; [|done].
    intros _. unfold overlay, mergedMeta, merged.
    cbn [color materialPreset notes Viewer.name m_color m_materialPreset
         m_notes m_name pm_color pm_materialPreset pm_notes pm_name].
    rewrite !truthy_defined by by apply js_or_default_truthy.
    rewrite !js_or_notes_defined. split_and!.
    + unfold js_or at 1 2.
      by rewrite !js_or_default_truthy.
    + unfold js_or at 1 2.
      by rewrite !js_or_default_truthy.
    + done.
    + intros Hn. rewrite (truthy_defined _ Hn). unfold js_or.
      by rewrite Hn.
  - rewrite lookup_insert_ne by by intros ?%(inj pretty).
    split; [reflexivity|]. by split.
Qed.

End Facts.

(** The third layer of project 1 is painted red in the panel, saved with
    the password of the project, and the project is loaded again. *)
Definition edited : State :=
  app (world (default PanelFacts.mountedPage
                (acts PanelFacts.mountedPage
                   [ LoadEvent (ProjectChosen 1);
                     LoadEvent (Loaded 0 ViewerFacts.bracket);
                     ChangePartColor 2 "#ff0000" ]))).

Lemma saved_part_meta_comes_back_witness :
  ∃ body r,
    savePartMetaRequest 2 (Some "abc123") edited = Some ("1", body)
    ∧ applyProjectPartsMeta
        (getProjects
           (putPartsMeta ServerFacts.toyHash "1" body DiskOk
              [ServerFacts.bracketV1]).2 !! 0)
        (imap freshPart (meshes ViewerFacts.bracket)) !! 2 = Some r
    ∧ color r = JStr "#ff0000".
Proof.
  destruct (savePartMetaRequest 2 (Some "abc123") edited)
    as [[reqId body]|] eqn:Hreq; [|by vm_compute in Hreq].
  assert (reqId = "1") as -> by (vm_compute in Hreq; congruence).
  destruct (findPart 2 (parts edited)) as [part|] eqn:Hpart;
    [|by vm_compute in Hpart].
  destruct (saved_part_meta_comes_back ServerFacts.toyHash edited 2 "abc123"
              part [ServerFacts.bracketV1] "1" body 0 ServerFacts.bracketV1
              (imap freshPart (meshes ViewerFacts.bracket)) 2
              (freshPart 2 (ViewerFacts.meshData "tapa")))
    as (view & before & r & _ & Hview & _ & _ & Hr & Hk & _);
    [done|done|by vm_compute|by vm_compute|by vm_compute|].
  exists body, r. split; [done|]. rewrite Hview. split; [done|].
  destruct Hk as (-> & _); [done|].
  vm_compute in Hpart. by injection Hpart as <-.
Defined.

End EndToEnd.

(** * Properties of the quotation rows *)

Module CotizacionFacts.
Import Cotizacion.

Section Facts.

Variable Amount : Type.
Variable one zero : Amount.
Variable trim : string → string.

Abbreviation Item := (Cotizacion.Item Amount).
Abbreviation rowStep := (Cotizacion.rowStep Amount one zero).
Abbreviation handleRemoveRow := (Cotizacion.handleRemoveRow Amount one zero).
Abbreviation handleAddRow := (Cotizacion.handleAddRow Amount one zero).
Abbreviation blankRow := (Cotizacion.blankRow Amount one zero).
Abbreviation initialItems := (Cotizacion.initialItems Amount one zero).
Abbreviation handleOpenLink := (Cotizacion.handleOpenLink trim).

Lemma rowStep_nonempty (items : list Item) (a : RowAction Amount) :
  items ≠ [] → rowStep items a ≠ [].
Proof.
  intros Hne. destruct a as [|index|loaded]; cbn.
  - unfold Cotizacion.handleAddRow. destruct items; [congruence|done].
  - unfold Cotizacion.handleRemoveRow. case_decide as Hlen; [done|].
    destruct items as [|x [|y rest]]; [congruence|by destruct Hlen|].
    by destruct index as [|[|index]].
  - unfold loadedRows. by destruct loaded.
Qed.

(** X15. The table of a quotation is never empty: it starts with one blank
    row and every action keeps at least one row (rows added, rows removed,
    a quotation read from the server, in any order). Removing the only row
    puts a blank row in its place, whatever index is given; with more rows,
    removing an existing row takes exactly that row out and keeps the
    others in order. *)
Theorem quotation_keeps_a_row (actions : list (RowAction Amount)) :
  foldl rowStep initialItems actions ≠ []
  ∧ (∀ row index, handleRemoveRow index [row] = [blankRow])
  ∧ (∀ items index row,
       1 < length items → items !! index = Some row →
       handleRemoveRow index items
       = take index items ++ drop (S index) items
       ∧ length (handleRemoveRow index items) + 1 = length items).
Proof.
  split_and!.
  - assert (H : ∀ items : list Item,
              items ≠ [] → foldl rowStep items actions ≠ []).
    { induction actions as [|a actions IH]; intros items Hne; [done|].
      cbn [foldl]. by apply IH, rowStep_nonempty. }
    by apply H.
  - done.
  - intros items index row Hlen Hrow. unfold Cotizacion.handleRemoveRow.
    case_decide; [lia|]. rewrite delete_take_drop. split; [done|].
    rewrite <- delete_take_drop, length_delete by eauto. lia.
Qed.

Lemma prefix_app (p s : string) : String.prefix p (p +:+ s) = true.
Proof.
  induction p as [|a p IH]; [by destruct s|].
  change (String a p +:+ s) with (String a (p +:+ s)).
  change (String.prefix (String a p) (String a (p +:+ s)))
    with (if Ascii.ascii_dec a a then String.prefix p (p +:+ s) else false).
  destruct (Ascii.ascii_dec a a); [exact IH|congruence].
Qed.

(** X16. A link of a row is opened with a scheme: when the trimmed link is
    empty nothing is opened, and otherwise the URL opened starts with
    "http://" or "https://"; it is the trimmed link itself when that
    already starts so, and the trimmed link after "https://" when not. *)
Theorem links_open_with_a_scheme (link : string) :
  match handleOpenLink link with
  | None => trim link = ""
  | Some url =>
      trim link ≠ ""
      ∧ (String.prefix "http://" url = true
         ∨ String.prefix "https://" url = true)
      ∧ (String.prefix "http://" (trim link) = true
         ∨ String.prefix "https://" (trim link) = true →
         url = trim link)
      ∧ (String.prefix "http://" (trim link) = false →
         String.prefix "https://" (trim link) = false →
         url = "https://" +:+ trim link)
  end.
Proof.
  unfold Cotizacion.handleOpenLink.
  destruct (String.eqb_spec (trim link) "") as [|Hne]; [done|].
  destruct (String.prefix "http://" (trim link)) eqn:H1; cbn [orb].
  { split_and!; auto; intros; congruence. }
  destruct (String.prefix "https://" (trim link)) eqn:H2.
  { split_and!; auto; intros; congruence. }
  split_and!; [done| | |done].
  - right. apply prefix_app.
  - by intros [|].
Qed.

End Facts.

End CotizacionFacts.
